(** * quizzer-pygame: the quiz client and its game loop

    A shallow embedding of [quiz_game.py]: the question value, the two client
    calls to the Flask quizzer API ([fetch_random_question], [check_answer]),
    the drawing routine and the game loop of [main], followed by the
    properties the specification states about them.

    Python values are untyped, so the bodies the server sends and the fields
    of a question are values of [pyval]; Python exceptions are the [exn]
    cases of a [result]; the remote service, the log of requests sent and the
    calls made to pygame are threaded through a state-and-error monad. *)

From Stdlib Require Import ZArith List String Ascii Bool Lia.
From Stdlib Require Import Floats DecimalString.
From Stdlib Require Import DecimalPos DecimalZ Permutation.
Import ListNotations.

Local Open Scope string_scope.
Local Open Scope Z_scope.

Set Warnings "-register-all".

(** ** Python values *)

(** What [response.json()] can yield.  A string is the sequence of its
    characters.  A dict keeps its insertion order, so it is a list of
    bindings; the keys of a parsed body are pairwise distinct. *)
Inductive pyval : Type :=
| PNone
| PBool (b : bool)
| PInt (z : Z)
| PFloat (f : float)
| PStr (s : string)
| PList (items : list pyval)
| PDict (bindings : list (string * pyval)).

(** The exceptions the program can end with. *)
Inductive exn : Type :=
| GameException (message : string)
| TypeError
| KeyError (key : string)
| ZeroDivisionError
| JSONDecodeError
| RequestException
| SystemExit.

Inductive result (A : Type) : Type :=
| Ok (a : A)
| Raise (e : exn).
Arguments Ok {A} a.
Arguments Raise {A} e.

(** [str(z)] of an [int]. *)
Definition str_int (z : Z) : string := NilZero.string_of_int (Z.to_int z).

(** What the interpreter decides and the source does not: the digits of a
    float and the quoted form of a string that sits inside a container. *)
Class PyText : Type := {
  str_float : float -> string;
  repr_str : string -> string
}.

Fixpoint join (sep : string) (parts : list string) : string :=
  match parts with
  | [] => ""
  | [p] => p
  | p :: rest => p ++ sep ++ join sep rest
  end.

Section Text.
Context {T : PyText}.

(** [repr(v)]. *)
Fixpoint py_repr (v : pyval) : string :=
  match v with
  | PNone => "None"
  | PBool true => "True"
  | PBool false => "False"
  | PInt z => str_int z
  | PFloat f => str_float f
  | PStr s => repr_str s
  | PList items => "[" ++ join ", " (map py_repr items) ++ "]"
  | PDict bindings =>
      "{" ++ join ", "
               (map (fun kv => repr_str (fst kv) ++ ": " ++ py_repr (snd kv))
                    bindings) ++ "}"
  end.

(** [str(v)], which an f-string applies to each [{...}] field: a string is
    taken as it is, everything else as its [repr]. *)
Definition py_str (v : pyval) : string :=
  match v with
  | PStr s => s
  | _ => py_repr v
  end.
End Text.

(** [bool(v)], the test an [if] applies. *)
Definition py_truthy (v : pyval) : bool :=
  match v with
  | PNone => false
  | PBool b => b
  | PInt z => negb (z =? 0)
  | PFloat f => negb (PrimFloat.eqb f PrimFloat.zero)
  | PStr s => negb (String.length s =? 0)%nat
  | PList items => negb (Nat.eqb (List.length items) 0)
  | PDict bindings => negb (Nat.eqb (List.length bindings) 0)
  end.

(** [len(v)]: defined on strings, lists and dicts. *)
Definition py_len (v : pyval) : result Z :=
  match v with
  | PStr s => Ok (Z.of_nat (String.length s))
  | PList items => Ok (Z.of_nat (List.length items))
  | PDict bindings => Ok (Z.of_nat (List.length bindings))
  | _ => Raise TypeError
  end.

(** [a % b] on [int]s: the result has the sign of the divisor, as
    [Z.modulo] has; a zero divisor raises. *)
Definition py_mod (a b : Z) : result Z :=
  if b =? 0 then Raise ZeroDivisionError else Ok (a mod b).

Fixpoint chars (s : string) : list pyval :=
  match s with
  | EmptyString => []
  | String c rest => PStr (String c EmptyString) :: chars rest
  end.

(** The items a [for] loop draws from [v]: the characters of a string, the
    items of a list, the keys of a dict. *)
Definition py_iter (v : pyval) : result (list pyval) :=
  match v with
  | PStr s => Ok (chars s)
  | PList items => Ok items
  | PDict bindings => Ok (map (fun kv => PStr (fst kv)) bindings)
  | _ => Raise TypeError
  end.

Fixpoint lookup (key : string) (bindings : list (string * pyval)) : option pyval :=
  match bindings with
  | [] => None
  | (k, v) :: rest => if String.eqb k key then Some v else lookup key rest
  end.

(** [v[key]] with a string key: the binding of a dict, [KeyError] when the
    dict has none, [TypeError] on anything that is not a dict. *)
Definition py_getitem (v : pyval) (key : string) : result pyval :=
  match v with
  | PDict bindings =>
      match lookup key bindings with
      | Some x => Ok x
      | None => Raise (KeyError key)
      end
  | _ => Raise TypeError
  end.

(** ** The question *)

Record MultipleChoiceQuestion : Type := {
  question_id : pyval;
  question_text : pyval;
  answer_index : pyval;
  choices : pyval
}.

Definition parameters : list string :=
  ["question_id"; "question_text"; "answer_index"; "choices"].

Definition is_parameter (k : string) : bool :=
  existsb (String.eqb k) parameters.

(** The constructor applied to the keyword arguments unpacked from [v]:
    [v] must be a mapping, each of its keys
    must name a parameter of [__init__] and each parameter must be given;
    the values are stored as they come. *)
Definition new_question (v : pyval) : result MultipleChoiceQuestion :=
  match v with
  | PDict bindings =>
      if forallb (fun kv => is_parameter (fst kv)) bindings then
        match lookup "question_id" bindings, lookup "question_text" bindings,
              lookup "answer_index" bindings, lookup "choices" bindings with
        | Some i, Some t, Some a, Some c =>
            Ok {| question_id := i; question_text := t;
                  answer_index := a; choices := c |}
        | _, _, _, _ => Raise TypeError
        end
      else Raise TypeError
  | _ => Raise TypeError
  end.

(** ** The remote service and the display *)

(** A response: its status code and its body as [json()] reads it, [None]
    when the body is not JSON. *)
Record response : Type := {
  status_code : Z;
  body : option pyval
}.

(** The Flask quizzer API as the client sees it: a state and the answer it
    gives to a GET of a URL, [None] when no answer arrives within the
    timeout. *)
Class QuizServer : Type := {
  server : Type;
  serve : string -> server -> option response * server
}.

Definition color : Type := Z * Z * Z.
Definition WHITE : color := (255, 255, 255).
Definition BLACK : color := (0, 0, 0).
Definition BLUE : color := (0, 0, 255).
Definition GREEN : color := (0, 255, 0).
Definition RED : color := (255, 0, 0).

Definition WIDTH : Z := 800.
Definition HEIGHT : Z := 600.

Inductive font : Type := FONT | LARGE_FONT.

(** The calls the program makes to pygame, in order. *)
Inductive call : Type :=
| set_mode (width height : Z)
| set_caption (title : string)
| fill (c : color)
| render_blit (text : pyval) (x y : Z) (f : font) (c : color)
| flip
| wait (milliseconds : Z)
| pygame_quit.

Definition API_BASE_URL : string := "http://127.0.0.1:5000/api".

(** ** Keyboard and window events *)

Inductive key : Type := K_q | K_DOWN | K_UP | K_RETURN | K_other.

Inductive event : Type :=
| QUIT
| KEYDOWN (k : key)
| other_event.

Definition key_eqb (a b : key) : bool :=
  match a, b with
  | K_q, K_q | K_DOWN, K_DOWN | K_UP, K_UP
  | K_RETURN, K_RETURN | K_other, K_other => true
  | _, _ => false
  end.

(** The local variables of [main]. *)
Record locals : Type := {
  game_running : bool;
  selected_option : Z;
  question : MultipleChoiceQuestion;
  score : Z
}.

Definition set_game_running (b : bool) (st : locals) : locals :=
  {| game_running := b; selected_option := selected_option st;
     question := question st; score := score st |}.

Definition set_selected_option (s : Z) (st : locals) : locals :=
  {| game_running := game_running st; selected_option := s;
     question := question st; score := score st |}.

Definition set_question (q : MultipleChoiceQuestion) (st : locals) : locals :=
  {| game_running := game_running st; selected_option := selected_option st;
     question := q; score := score st |}.

Declare Scope py_scope.
Delimit Scope py_scope with py.

Section Program.
Context {T : PyText} {Q : QuizServer}.

(** What a run acts on: the service, the URLs requested so far and the
    calls made to the display so far. *)
Record world : Type := {
  srv : server;
  sent : list string;
  shown : list call
}.

(** A computation that may raise and that acts on the world; what was
    sent and shown before an exception stays sent and shown. *)
Definition M (A : Type) : Type := world -> result A * world.

Definition ret {A} (a : A) : M A := fun w => (Ok a, w).

Definition raise {A} (e : exn) : M A := fun w => (Raise e, w).

Definition bind {A B} (m : M A) (k : A -> M B) : M B :=
  fun w =>
    match m w with
    | (Ok a, w') => k a w'
    | (Raise e, w') => (Raise e, w')
    end.

Definition lift {A} (r : result A) : M A := fun w => (r, w).

Notation "x <- m ; k" := (bind m (fun x => k))
  (at level 61, m at next level, right associativity) : py_scope.
Notation "m ;; k" := (bind m (fun _ => k))
  (at level 61, right associativity) : py_scope.
Local Open Scope py_scope.

(** [requests.get(url, timeout=5)]: the URL is sent, and the call raises
    when the service gives no answer. *)
Definition requests_get (url : string) : M response :=
  fun w =>
    let (answer, s) := serve url (srv w) in
    (match answer with
     | Some r => Ok r
     | None => Raise RequestException
     end,
     {| srv := s; sent := sent w ++ [url]; shown := shown w |}).

(** [response.json()]. *)
Definition json (r : response) : M pyval :=
  match body r with
  | Some v => ret v
  | None => raise JSONDecodeError
  end.

Definition emit (c : call) : M unit :=
  fun w => (Ok tt, {| srv := srv w; sent := sent w; shown := shown w ++ [c] |}).

Definition unreachable_message : string :=
  "Something is wrong reaching the Flask quizzer API.".

Definition random_question_url : string := API_BASE_URL ++ "/random-question".

Definition answer_url (question : MultipleChoiceQuestion) (selected_option : Z)
  : string :=
  API_BASE_URL ++ "/question/" ++ py_str (question_id question)
               ++ "/answer/" ++ str_int selected_option.

Definition fetch_random_question : M MultipleChoiceQuestion :=
  response <- requests_get random_question_url;
  if status_code response =? 200 then
    v <- json response;
    lift (new_question v)
  else if status_code response =? 400 then
    v <- json response;
    m <- lift (py_getitem v "message");
    raise (GameException ("Bad request: " ++ py_str m))
  else
    raise (GameException unreachable_message).

Definition check_answer (question : MultipleChoiceQuestion) (selected_option : Z)
  : M pyval :=
  response <- requests_get (answer_url question selected_option);
  if status_code response =? 200 then
    v <- json response;
    lift (py_getitem v "is_correct")
  else if status_code response =? 400 then
    v <- json response;
    m <- lift (py_getitem v "message");
    raise (GameException ("Bad request: " ++ py_str m))
  else
    raise (GameException unreachable_message).

Definition draw_text (text : pyval) (x y : Z) (f : font) (c : color) : M unit :=
  emit (render_blit text x y f c).

(** The body of the [for i, option in enumerate(...)] loop, from index [i]. *)
Fixpoint draw_options (i : Z) (options : list pyval) (selected_option : Z)
  : M unit :=
  match options with
  | [] => ret tt
  | option :: rest =>
      draw_text (PStr (str_int (i + 1) ++ ". " ++ py_str option))
                50 (150 + i * 40) FONT
                (if i =? selected_option then GREEN else WHITE);;
      draw_options (i + 1) rest selected_option
  end.

(** A question object is always true under [if question:]. *)
Definition draw_question (question : MultipleChoiceQuestion)
           (selected_option score : Z) : M unit :=
  emit (fill BLACK);;
  draw_text (question_text question) 20 50 LARGE_FONT WHITE;;
  options <- lift (py_iter (choices question));
  draw_options 0 options selected_option;;
  draw_text (PStr ("Score: " ++ str_int score)) 20 (HEIGHT - 50) FONT BLUE;;
  emit flip.

(** One pass of the body of [for event in pygame.event.get()]. *)
Definition handle_event (ev : event) (st : locals) : M locals :=
  match ev with
  | QUIT => ret (set_game_running false st)
  | KEYDOWN k =>
      let st := if key_eqb k K_q then set_game_running false st else st in
      if key_eqb k K_DOWN then
        n <- lift (py_len (choices (question st)));
        s <- lift (py_mod (selected_option st + 1) n);
        ret (set_selected_option s st)
      else if key_eqb k K_UP then
        n <- lift (py_len (choices (question st)));
        s <- lift (py_mod (selected_option st - 1) n);
        ret (set_selected_option s st)
      else if key_eqb k K_RETURN then
        correct <- check_answer (question st) (selected_option st);
        if py_truthy correct then
          q <- fetch_random_question;
          ret (set_selected_option 0 (set_question q st))
        else ret st
      else ret st
  | other_event => ret st
  end.

Fixpoint handle_events (events : list event) (st : locals) : M locals :=
  match events with
  | [] => ret st
  | ev :: rest => st' <- handle_event ev st; handle_events rest st'
  end.

(** The [while game_running] loop over the batches that successive calls
    of [pygame.event.get()] return.  A run over finitely many batches that
    is still running when they are used up returns its locals. *)
Fixpoint game_loop (frames : list (list event)) (st : locals) : M locals :=
  if game_running st then
    match frames with
    | [] => ret st
    | events :: later =>
        st' <- handle_events events st;
        draw_question (question st') (selected_option st') (score st');;
        game_loop later st'
    end
  else ret st.

(** [sys.exit()]. *)
Definition sys_exit {A} : M A := raise SystemExit.

(** [main]: [sys.exit()] ends it with [SystemExit]; it returns only as a
    run cut short, with the loop still running. *)
Definition main (frames : list (list event)) : M locals :=
  emit (set_mode WIDTH HEIGHT);;
  emit (set_caption "Quiz Game");;
  q <- fetch_random_question;
  st <- game_loop frames {| game_running := true; selected_option := 0;
                            question := q; score := 0 |};
  if game_running st then ret st
  else
    emit (fill BLACK);;
    draw_text (PStr "Game Over!")
              (WIDTH / 2 - 100) (HEIGHT / 2 - 50) LARGE_FONT RED;;
    draw_text (PStr ("Your Score: " ++ str_int (score st)))
              (WIDTH / 2 - 100) (HEIGHT / 2) FONT WHITE;;
    emit flip;;
    emit (wait 3000);;
    emit pygame_quit;;
    sys_exit.

End Program.

Arguments world {Q}.
Arguments M {Q} A.

(** ** Notions used in the statements *)

(** The two error branches shared by both client calls. *)
Definition error_of {A} {T : PyText} (r : response) : result A :=
  if status_code r =? 400 then
    match body r with
    | None => Raise JSONDecodeError
    | Some v =>
        match py_getitem v "message" with
        | Ok m => Raise (GameException ("Bad request: " ++ py_str m))
        | Raise e => Raise e
        end
    end
  else Raise (GameException unreachable_message).

(** What [check_answer] makes of a response. *)
Definition answer_of {T : PyText} (r : response) : result pyval :=
  if status_code r =? 200 then
    match body r with
    | None => Raise JSONDecodeError
    | Some v => py_getitem v "is_correct"
    end
  else error_of r.

(** What [fetch_random_question] makes of a response. *)
Definition question_of {T : PyText} (r : response) : result MultipleChoiceQuestion :=
  if status_code r =? 200 then
    match body r with
    | None => Raise JSONDecodeError
    | Some v => new_question v
    end
  else error_of r.

(** The quit commands: the window-close event and the q key. *)
Definition is_quit (ev : event) : bool :=
  match ev with
  | QUIT | KEYDOWN K_q => true
  | _ => false
  end.

Definition has_quit (frames : list (list event)) : bool :=
  existsb (existsb is_quit) frames.

(** The locals [main] enters its loop with. *)
Definition initial (q : MultipleChoiceQuestion) : locals :=
  {| game_running := true; selected_option := 0; question := q; score := 0 |}.

(** The calls of the end screen: the two texts, the three-second wait and
    the shutdown of pygame. *)
Definition end_calls (score : Z) : list call :=
  [fill BLACK;
   render_blit (PStr "Game Over!") 300 250 LARGE_FONT RED;
   render_blit (PStr ("Your Score: " ++ str_int score)) 300 300 FONT WHITE;
   flip;
   wait 3000;
   pygame_quit].

Section Notions.
Context {T : PyText} {Q : QuizServer}.

(** The world once [url] has been requested. *)
Definition after_request (url : string) (w : world) : world :=
  {| srv := snd (serve url (srv w)); sent := sent w ++ [url]; shown := shown w |}.

Definition received {A} (interpret : response -> result A) (url : string)
           (w : world) : result A :=
  match fst (serve url (srv w)) with
  | Some r => interpret r
  | None => Raise RequestException
  end.

(** The locals after a correct answer: the new question, the selection
    back at 0, the other two untouched. *)
Definition replaced (q : MultipleChoiceQuestion) (st : locals) : locals :=
  set_selected_option 0 (set_question q st).

(** The world with further calls made to the display. *)
Definition show (calls : list call) (w : world) : world :=
  {| srv := srv w; sent := sent w; shown := (shown w ++ calls)%list |}.

Definition setup (w : world) : world :=
  show [set_mode WIDTH HEIGHT; set_caption "Quiz Game"] w.

(** The states the locals and the world go through: the start after the
    first question has arrived, then one event or one redraw at a time. *)
Inductive reachable : locals -> world -> Prop :=
| reach_start (w w' : world) (q : MultipleChoiceQuestion) :
    fetch_random_question w = (Ok q, w') ->
    reachable (initial q) w'
| reach_event (ev : event) (st st' : locals) (w w' : world) :
    reachable st w ->
    handle_event ev st w = (Ok st', w') ->
    reachable st' w'
| reach_draw (st : locals) (w w' : world) :
    reachable st w ->
    draw_question (question st) (selected_option st) (score st) w = (Ok tt, w') ->
    reachable st w'.

(** The selected option is an index into the list of choices. *)
Definition in_range (st : locals) : Prop :=
  exists items,
    choices (question st) = PList items
    /\ 0 <= selected_option st < Z.of_nat (List.length items).

(** Every question that arrives has a non-empty list of choices. *)
Definition questions_have_choices : Prop :=
  forall (w w' : world) (q : MultipleChoiceQuestion),
    fetch_random_question w = (Ok q, w') ->
    exists items, choices q = PList items /\ items <> [].

End Notions.

(** ** Notions used for the drawing and the batches *)





(** [int(s)] on the digits [str] gives: the reading of a decimal numeral. *)
Definition int_of_str (s : string) : option Z :=
  option_map Z.of_int (NilZero.int_of_string s).

(** The two requests the client has: a URL is one of them. *)
Definition is_endpoint {T : PyText} (url : string) : Prop :=
  url = random_question_url
  \/ exists (q : MultipleChoiceQuestion) (s : Z), url = answer_url q s.

(** ** A scripted service, for the examples *)

(** A service that gives its scripted answers in order, whatever is asked,
    and none once the script is used up. *)
Definition scripted : QuizServer := {|
  server := list (option response);
  serve := fun _ script =>
    match script with
    | [] => (None, [])
    | answer :: rest => (answer, rest)
    end
|}.

(** An interpreter for the examples: a string inside a container is put
    between single quotes, which is what Python does when the string has no
    quote, backslash or unprintable character; the examples have no float. *)
Definition plain_text : PyText := {|
  str_float := fun _ => "nan";
  repr_str := fun s => "'" ++ s ++ "'"
|}.

Definition fresh (script : list (option response)) : @world scripted :=
  {| srv := (script : @server scripted); sent := []; shown := [] |}.

Definition ok_json (v : pyval) : option response :=
  Some {| status_code := 200; body := Some v |}.

Definition abc_question : pyval :=
  PDict [("question_id", PStr "q1"); ("question_text", PStr "Pick B");
         ("answer_index", PInt 1);
         ("choices", PList [PStr "A"; PStr "B"; PStr "C"])].

Definition next_question : pyval :=
  PDict [("question_id", PStr "q2"); ("question_text", PStr "Pick A");
         ("answer_index", PInt 0);
         ("choices", PList [PStr "A"; PStr "B"])].

(** The first of the two as a question object. *)
Definition abc : MultipleChoiceQuestion :=
  {| question_id := PStr "q1"; question_text := PStr "Pick B";
     answer_index := PInt 1;
     choices := PList [PStr "A"; PStr "B"; PStr "C"] |}.

(** The locals with the question [abc] and a given selected option. *)
Definition playing (selected_option : Z) : locals :=
  {| game_running := true; selected_option := selected_option;
     question := abc; score := 0 |}.

Definition verdict (b : bool) : option response :=
  ok_json (PDict [("is_correct", PBool b)]).

(** A response to a request the service refuses. *)
Definition refusal (status : Z) (message : string) : option response :=
  Some {| status_code := status;
          body := Some (PDict [("message", PStr message)]) |}.

(** A body with the four fields, none of the shape a question needs. *)
Definition misshapen_question : pyval :=
  PDict [("question_id", PNone); ("question_text", PInt 7);
         ("answer_index", PStr "two"); ("choices", PInt 5)].

(** A service with one question: it sends it whenever a question is asked
    for and takes B, the option of index 1, for the correct answer. *)
Definition one_question : QuizServer := {|
  server := unit;
  serve := fun url state =>
    (if String.eqb url random_question_url then ok_json abc_question
     else verdict (String.eqb url (API_BASE_URL ++ "/question/q1/answer/1")),
     state)
|}.

Definition opening : @world one_question :=
  {| srv := (tt : @server one_question); sent := []; shown := [] |}.

(** ** Moving the selection *)

Ltac run := unfold bind, ret, raise, lift, draw_text, emit, sys_exit in *.

Section Selection.
Context {T : PyText} {Q : QuizServer}.

Lemma set_selected_option_same (st : locals) :
  set_selected_option (selected_option st) st = st.
Proof. now destruct st. Qed.

Lemma set_selected_option_twice (a b : Z) (st : locals) :
  set_selected_option a (set_selected_option b st) = set_selected_option a st.
Proof. reflexivity. Qed.

Lemma selected_option_set (a : Z) (st : locals) :
  selected_option (set_selected_option a st) = a.
Proof. reflexivity. Qed.

Lemma py_len_list (items : list pyval) :
  py_len (PList items) = Ok (Z.of_nat (List.length items)).
Proof. reflexivity. Qed.

Lemma length_pos (items : list pyval) :
  items <> [] -> 0 < Z.of_nat (List.length items).
Proof. destruct items; [congruence | simpl; lia]. Qed.

Lemma py_mod_nonzero (a b : Z) : b <> 0 -> py_mod a b = Ok (a mod b).
Proof.
  intros Hb. unfold py_mod.
  destruct (Z.eqb_spec b 0); [contradiction | reflexivity].
Qed.

(** The down key on a question whose choices have length [n]. *)
Lemma down_step (st : locals) (w : world) (n : Z) :
  py_len (choices (question st)) = Ok n -> n <> 0 ->
  handle_event (KEYDOWN K_DOWN) st w
  = (Ok (set_selected_option ((selected_option st + 1) mod n) st), w).
Proof.
  intros Hlen Hn. unfold handle_event. simpl. run.
  now rewrite Hlen, (py_mod_nonzero _ _ Hn).
Qed.

Lemma up_step (st : locals) (w : world) (n : Z) :
  py_len (choices (question st)) = Ok n -> n <> 0 ->
  handle_event (KEYDOWN K_UP) st w
  = (Ok (set_selected_option ((selected_option st - 1) mod n) st), w).
Proof.
  intros Hlen Hn. unfold handle_event. simpl. run.
  now rewrite Hlen, (py_mod_nonzero _ _ Hn).
Qed.

Lemma succ_mod (s n : Z) :
  0 <= s < n -> (s + 1) mod n = if s + 1 =? n then 0 else s + 1.
Proof.
  intros Hs. destruct (Z.eqb_spec (s + 1) n) as [E | E].
  - rewrite E. apply Z.mod_same. lia.
  - apply Z.mod_small. lia.
Qed.

Lemma pred_mod (s n : Z) :
  0 <= s < n -> (s - 1) mod n = if s =? 0 then n - 1 else s - 1.
Proof.
  intros Hs. destruct (Z.eqb_spec s 0) as [E | E].
  - subst s. replace (0 - 1) with (n - 1 + (-1) * n) by lia.
    rewrite Z.mod_add by lia. apply Z.mod_small. lia.
  - apply Z.mod_small. lia.
Qed.

(** [k] presses of the down key add [k] modulo the length. *)
Lemma downs (k : nat) : forall (st : locals) (w : world) (n : Z),
  py_len (choices (question st)) = Ok n -> 0 <= selected_option st < n ->
  handle_events (repeat (KEYDOWN K_DOWN) k) st w
  = (Ok (set_selected_option ((selected_option st + Z.of_nat k) mod n) st), w).
Proof.
  induction k as [| k IH]; intros st w n Hlen Hs.
  - simpl. run. rewrite Z.add_0_r, Z.mod_small by lia.
    now rewrite set_selected_option_same.
  - cbn [repeat handle_events]. unfold bind at 1.
    rewrite (down_step st w n Hlen) by lia.
    rewrite (IH _ w n) by (simpl; first [assumption | apply Z.mod_pos_bound; lia]).
    rewrite selected_option_set, set_selected_option_twice.
    rewrite Z.add_mod_idemp_l by lia.
    do 4 f_equal. lia.
Qed.

Lemma ups (k : nat) : forall (st : locals) (w : world) (n : Z),
  py_len (choices (question st)) = Ok n -> 0 <= selected_option st < n ->
  handle_events (repeat (KEYDOWN K_UP) k) st w
  = (Ok (set_selected_option ((selected_option st - Z.of_nat k) mod n) st), w).
Proof.
  induction k as [| k IH]; intros st w n Hlen Hs.
  - simpl. run. rewrite Z.sub_0_r, Z.mod_small by lia.
    now rewrite set_selected_option_same.
  - cbn [repeat handle_events]. unfold bind at 1.
    rewrite (up_step st w n Hlen) by lia.
    rewrite (IH _ w n) by (simpl; first [assumption | apply Z.mod_pos_bound; lia]).
    rewrite selected_option_set, set_selected_option_twice.
    rewrite Zminus_mod_idemp_l.
    do 4 f_equal. lia.
Qed.

(** C4: on a question with a non-empty list of choices and a selection
    [s] within it, the down key sets the selection to [(s + 1) mod len]
    and the up key to [(s - 1) mod len]; the first is [s + 1] or wraps to
    0 from the last index, the second is [s - 1] or wraps from 0 to the
    last index [len - 1]. *)
Theorem move_selection_wraps (st : locals) (w : world) (items : list pyval) :
  choices (question st) = PList items ->
  items <> [] ->
  0 <= selected_option st < Z.of_nat (List.length items) ->
  let s := selected_option st in
  let n := Z.of_nat (List.length items) in
  handle_event (KEYDOWN K_DOWN) st w
  = (Ok (set_selected_option ((s + 1) mod n) st), w)
  /\ handle_event (KEYDOWN K_UP) st w
     = (Ok (set_selected_option ((s - 1) mod n) st), w)
  /\ (s + 1) mod n = (if s + 1 =? n then 0 else s + 1)
  /\ (s - 1) mod n = (if s =? 0 then n - 1 else s - 1).
Proof.
  intros Hc Hne Hs s n.
  assert (Hlen : py_len (choices (question st)) = Ok n)
    by (rewrite Hc; apply py_len_list).
  assert (Hn : n <> 0) by (pose proof (length_pos items Hne); subst n; lia).
  repeat split.
  - now apply down_step.
  - now apply up_step.
  - now apply succ_mod.
  - now apply pred_mod.
Qed.

(** C5: on a list of choices of length N >= 1, N presses of the down key
    bring the selection back to the index it started from, and so do N
    presses of the up key; down then up, and up then down, bring it back
    as well. *)
Theorem selection_cycles (st : locals) (w : world) (items : list pyval) :
  choices (question st) = PList items ->
  (1 <= List.length items)%nat ->
  0 <= selected_option st < Z.of_nat (List.length items) ->
  handle_events (repeat (KEYDOWN K_DOWN) (List.length items)) st w = (Ok st, w)
  /\ handle_events (repeat (KEYDOWN K_UP) (List.length items)) st w = (Ok st, w)
  /\ handle_events [KEYDOWN K_DOWN; KEYDOWN K_UP] st w = (Ok st, w)
  /\ handle_events [KEYDOWN K_UP; KEYDOWN K_DOWN] st w = (Ok st, w).
Proof.
  intros Hc HN Hs.
  set (n := Z.of_nat (List.length items)) in *.
  assert (Hlen : py_len (choices (question st)) = Ok n)
    by (rewrite Hc; apply py_len_list).
  assert (Hback : forall x, x mod n = selected_option st mod n ->
                            set_selected_option (x mod n) st = st).
  { intros x E. rewrite E, Z.mod_small by lia.
    apply set_selected_option_same. }
  repeat split.
  - rewrite (downs _ st w n Hlen Hs). fold n. rewrite Hback; [reflexivity |].
    rewrite <- (Z.mul_1_l n) at 1. apply Z.mod_add. lia.
  - rewrite (ups _ st w n Hlen Hs). fold n. rewrite Hback; [reflexivity |].
    replace (selected_option st - n) with (selected_option st + (-1) * n) by lia.
    apply Z.mod_add. lia.
  - change [KEYDOWN K_DOWN; KEYDOWN K_UP]
      with (KEYDOWN K_DOWN :: repeat (KEYDOWN K_UP) 1).
    cbn [handle_events]. unfold bind at 1.
    rewrite (down_step st w n Hlen) by lia.
    rewrite (ups 1 _ w n) by (simpl; first [assumption | apply Z.mod_pos_bound; lia]).
    rewrite selected_option_set, set_selected_option_twice.
    rewrite Zminus_mod_idemp_l, Hback; [reflexivity |].
    f_equal. lia.
  - change [KEYDOWN K_UP; KEYDOWN K_DOWN]
      with (KEYDOWN K_UP :: repeat (KEYDOWN K_DOWN) 1).
    cbn [handle_events]. unfold bind at 1.
    rewrite (up_step st w n Hlen) by lia.
    rewrite (downs 1 _ w n) by (simpl; first [assumption | apply Z.mod_pos_bound; lia]).
    rewrite selected_option_set, set_selected_option_twice.
    rewrite Z.add_mod_idemp_l by lia. rewrite Hback; [reflexivity |].
    f_equal. lia.
Qed.

End Selection.

(** ** The client calls, response by response *)

Section Client.
Context {T : PyText} {Q : QuizServer}.

Lemma check_answer_run (q : MultipleChoiceQuestion) (s : Z) (w : world) :
  check_answer q s w
  = (received answer_of (answer_url q s) w, after_request (answer_url q s) w).
Proof.
  unfold check_answer, received, after_request, requests_get, bind.
  destruct (serve (answer_url q s) (srv w)) as [[r |] sv]; simpl; [| reflexivity].
  unfold answer_of, error_of, json.
  destruct (status_code r =? 200).
  - destruct (body r); run; reflexivity.
  - destruct (status_code r =? 400); [| reflexivity].
    destruct (body r) as [v |]; run; [| reflexivity].
    destruct (py_getitem v "message"); reflexivity.
Qed.

Lemma fetch_random_question_run (w : world) :
  fetch_random_question w
  = (received question_of random_question_url w,
     after_request random_question_url w).
Proof.
  unfold fetch_random_question, received, after_request, requests_get, bind.
  destruct (serve random_question_url (srv w)) as [[r |] sv]; simpl;
    [| reflexivity].
  unfold question_of, error_of, json.
  destruct (status_code r =? 200).
  - destruct (body r); run; reflexivity.
  - destruct (status_code r =? 400); [| reflexivity].
    destruct (body r) as [v |]; run; [| reflexivity].
    destruct (py_getitem v "message"); reflexivity.
Qed.

Lemma answer_url_is_not_random_question_url (q : MultipleChoiceQuestion) (s : Z) :
  answer_url q s <> random_question_url.
Proof. unfold answer_url, random_question_url. cbn. discriminate. Qed.

(** C9: [check_answer] never looks at [answer_index]: two questions with
    the same [question_id], whatever their other fields, and the same
    selected option send the same request and, on the same service, end
    in the same result and the same world; when the service answers 200
    with an [is_correct] entry, the value returned is that entry. *)
Theorem check_answer_is_the_server_verdict
        (q1 q2 : MultipleChoiceQuestion) (s : Z) (w : world) :
  question_id q1 = question_id q2 ->
  answer_url q1 s = answer_url q2 s
  /\ sent (snd (check_answer q1 s w)) = (sent w ++ [answer_url q1 s])%list
  /\ sent (snd (check_answer q2 s w)) = (sent w ++ [answer_url q1 s])%list
  /\ check_answer q1 s w = check_answer q2 s w
  /\ (forall r sv bindings v,
        serve (answer_url q1 s) (srv w) = (Some r, sv) ->
        status_code r = 200 ->
        body r = Some (PDict bindings) ->
        lookup "is_correct" bindings = Some v ->
        fst (check_answer q1 s w) = Ok v /\ fst (check_answer q2 s w) = Ok v).
Proof.
  intros Hid.
  assert (Hurl : answer_url q1 s = answer_url q2 s)
    by (unfold answer_url; now rewrite Hid).
  rewrite !check_answer_run, <- Hurl. simpl.
  split; [| split; [| split; [| split]]]; try reflexivity.
  intros r sv bindings v Hserve Hstatus Hbody Hentry.
  unfold received, answer_of. rewrite Hserve. simpl.
  rewrite Hstatus, Hbody. simpl. now rewrite Hentry.
Qed.

End Client.

(** ** Confirming an answer *)

Section Confirm.
Context {T : PyText} {Q : QuizServer}.

Lemma confirm_run (st : locals) (w : world) :
  handle_event (KEYDOWN K_RETURN) st w
  = match check_answer (question st) (selected_option st) w with
    | (Ok correct, w1) =>
        if py_truthy correct then
          match fetch_random_question w1 with
          | (Ok q, w2) => (Ok (replaced q st), w2)
          | (Raise e, w2) => (Raise e, w2)
          end
        else (Ok st, w1)
    | (Raise e, w1) => (Raise e, w1)
    end.
Proof.
  unfold handle_event. simpl. unfold bind at 1.
  destruct (check_answer _ _ w) as [[correct | e] w1]; [| reflexivity].
  destruct (py_truthy correct); [| reflexivity].
  unfold bind. destruct (fetch_random_question w1) as [[q | e] w2]; reflexivity.
Qed.

(** Every event but a confirmed correct answer leaves the question in
    place and requests no new one. *)
Lemma question_kept_or_replaced (ev : event) (st st' : locals) (w w' : world) :
  handle_event ev st w = (Ok st', w') ->
  (exists correct w1 q,
      ev = KEYDOWN K_RETURN
      /\ check_answer (question st) (selected_option st) w = (Ok correct, w1)
      /\ py_truthy correct = true
      /\ fetch_random_question w1 = (Ok q, w')
      /\ st' = replaced q st)
  \/ (question st' = question st
      /\ exists urls, sent w' = (sent w ++ urls)%list
                      /\ ~ In random_question_url urls).
Proof.
  intros Hrun. destruct ev as [| k |].
  - right. inversion Hrun; subst. split; [reflexivity |].
    exists []. now rewrite app_nil_r.
  - destruct k.
    + right. inversion Hrun; subst. split; [reflexivity |].
      exists []. now rewrite app_nil_r.
    + right. unfold handle_event in Hrun. simpl in Hrun. run.
      destruct (py_len _); [| discriminate].
      destruct (py_mod _ _); inversion Hrun; subst.
      split; [reflexivity |]. exists []. now rewrite app_nil_r.
    + right. unfold handle_event in Hrun. simpl in Hrun. run.
      destruct (py_len _); [| discriminate].
      destruct (py_mod _ _); inversion Hrun; subst.
      split; [reflexivity |]. exists []. now rewrite app_nil_r.
    + rewrite confirm_run in Hrun.
      destruct (check_answer _ _ w) as [[correct | e] w1] eqn:Hcheck;
        [| discriminate].
      destruct (py_truthy correct) eqn:Htruthy.
      * left. destruct (fetch_random_question w1) as [[q | e] w2] eqn:Hfetch;
          inversion Hrun; subst.
        now exists correct, w1, q.
      * right. inversion Hrun; subst. split; [reflexivity |].
        rewrite check_answer_run in Hcheck. inversion Hcheck; subst.
        exists [answer_url (question st') (selected_option st')].
        split; [reflexivity |]. intros [E | []].
        exact (answer_url_is_not_random_question_url _ _ E).
    + right. inversion Hrun; subst. split; [reflexivity |].
      exists []. now rewrite app_nil_r.
  - right. inversion Hrun; subst. split; [reflexivity |].
    exists []. now rewrite app_nil_r.
Qed.

(** C1: the enter key calls [check_answer] on the current question and
    selected option.  An exception of that call goes through; a true
    result requests a new question, which on arrival replaces the current
    one with the selection back at 0; any other result changes nothing.
    No other event, and no other result, requests or installs a new
    question. *)
Theorem confirm_replaces_iff_correct :
  (forall st w e w1,
      check_answer (question st) (selected_option st) w = (Raise e, w1) ->
      handle_event (KEYDOWN K_RETURN) st w = (Raise e, w1))
  /\ (forall st w correct w1 q w2,
        check_answer (question st) (selected_option st) w = (Ok correct, w1) ->
        py_truthy correct = true ->
        fetch_random_question w1 = (Ok q, w2) ->
        handle_event (KEYDOWN K_RETURN) st w = (Ok (replaced q st), w2)
        /\ question (replaced q st) = q
        /\ selected_option (replaced q st) = 0
        /\ game_running (replaced q st) = game_running st
        /\ score (replaced q st) = score st)
  /\ (forall st w correct w1 e w2,
        check_answer (question st) (selected_option st) w = (Ok correct, w1) ->
        py_truthy correct = true ->
        fetch_random_question w1 = (Raise e, w2) ->
        handle_event (KEYDOWN K_RETURN) st w = (Raise e, w2))
  /\ (forall st w correct w1,
        check_answer (question st) (selected_option st) w = (Ok correct, w1) ->
        py_truthy correct = false ->
        handle_event (KEYDOWN K_RETURN) st w = (Ok st, w1))
  /\ (forall ev st w st' w',
        handle_event ev st w = (Ok st', w') ->
        (exists correct w1 q,
            ev = KEYDOWN K_RETURN
            /\ check_answer (question st) (selected_option st) w = (Ok correct, w1)
            /\ py_truthy correct = true
            /\ fetch_random_question w1 = (Ok q, w')
            /\ st' = replaced q st)
        \/ (question st' = question st
            /\ exists urls, sent w' = (sent w ++ urls)%list
                            /\ ~ In random_question_url urls)).
Proof.
  split; [| split; [| split; [| split]]].
  - intros st w e w1 Hcheck. now rewrite confirm_run, Hcheck.
  - intros st w correct w1 q w2 Hcheck Htruthy Hfetch.
    now rewrite confirm_run, Hcheck, Htruthy, Hfetch.
  - intros st w correct w1 e w2 Hcheck Htruthy Hfetch.
    now rewrite confirm_run, Hcheck, Htruthy, Hfetch.
  - intros st w correct w1 Hcheck Htruthy.
    now rewrite confirm_run, Hcheck, Htruthy.
  - intros ev st w st' w'. apply question_kept_or_replaced.
Qed.

(** C3: when [check_answer] returns false, the enter key leaves the
    locals as they were, the selected option and the question among them;
    the one request made is the check itself and nothing is drawn. *)
Theorem wrong_answer_changes_nothing (st : locals) (w w1 : world) (correct : pyval) :
  check_answer (question st) (selected_option st) w = (Ok correct, w1) ->
  py_truthy correct = false ->
  handle_event (KEYDOWN K_RETURN) st w = (Ok st, w1)
  /\ sent w1 = (sent w ++ [answer_url (question st) (selected_option st)])%list
  /\ shown w1 = shown w.
Proof.
  intros Hcheck Htruthy. split.
  - now rewrite confirm_run, Hcheck, Htruthy.
  - rewrite check_answer_run in Hcheck. inversion Hcheck; subst. now split.
Qed.

End Confirm.

(** ** Error statuses *)

Section Errors.
Context {T : PyText} {Q : QuizServer}.

Lemma error_of_400 {A} (r : response) (bindings : list (string * pyval)) (m : string) :
  status_code r = 400 ->
  body r = Some (PDict bindings) ->
  lookup "message" bindings = Some (PStr m) ->
  @error_of A T r = Raise (GameException ("Bad request: " ++ m)).
Proof.
  intros Hstatus Hbody Hmessage. unfold error_of.
  rewrite Hstatus, Hbody. simpl. now rewrite Hmessage.
Qed.

Lemma error_of_other {A} (r : response) :
  status_code r <> 400 ->
  @error_of A T r = Raise (GameException unreachable_message).
Proof.
  intros Hstatus. unfold error_of.
  now destruct (Z.eqb_spec (status_code r) 400).
Qed.

(** C2, as the code has it: for both client calls, status 400 and only
    400 raises an error whose text is "Bad request: " followed by the
    message of the body, unchanged; every other status but 200, the other
    4xx among them, raises the fixed text about reaching the API, whatever
    the body holds. *)
Theorem bad_request_is_status_400_only
        (w : world) (r : response) (sv : server)
        (q : MultipleChoiceQuestion) (s : Z) :
  (serve random_question_url (srv w) = (Some r, sv) ->
   (forall bindings m,
       status_code r = 400 ->
       body r = Some (PDict bindings) ->
       lookup "message" bindings = Some (PStr m) ->
       fst (fetch_random_question w)
       = Raise (GameException ("Bad request: " ++ m)))
   /\ (status_code r <> 200 -> status_code r <> 400 ->
       fst (fetch_random_question w) = Raise (GameException unreachable_message)))
  /\ (serve (answer_url q s) (srv w) = (Some r, sv) ->
      (forall bindings m,
          status_code r = 400 ->
          body r = Some (PDict bindings) ->
          lookup "message" bindings = Some (PStr m) ->
          fst (check_answer q s w)
          = Raise (GameException ("Bad request: " ++ m)))
      /\ (status_code r <> 200 -> status_code r <> 400 ->
          fst (check_answer q s w) = Raise (GameException unreachable_message))).
Proof.
  split; intros Hserve.
  - rewrite fetch_random_question_run. unfold received, question_of.
    rewrite Hserve. simpl. split.
    + intros bindings m Hstatus Hbody Hmessage.
      rewrite Hstatus. simpl. now apply (error_of_400 r bindings).
    + intros H200 H400. destruct (Z.eqb_spec (status_code r) 200);
        [contradiction | now apply error_of_other].
  - rewrite check_answer_run. unfold received, answer_of.
    rewrite Hserve. simpl. split.
    + intros bindings m Hstatus Hbody Hmessage.
      rewrite Hstatus. simpl. now apply (error_of_400 r bindings).
    + intros H200 H400. destruct (Z.eqb_spec (status_code r) 200);
        [contradiction | now apply error_of_other].
Qed.

(** ** Building a question from a body *)

Lemma new_question_ok (v : pyval) (q : MultipleChoiceQuestion) :
  new_question v = Ok q <->
  exists bindings,
    v = PDict bindings
    /\ forallb (fun kv => is_parameter (fst kv)) bindings = true
    /\ lookup "question_id" bindings = Some (question_id q)
    /\ lookup "question_text" bindings = Some (question_text q)
    /\ lookup "answer_index" bindings = Some (answer_index q)
    /\ lookup "choices" bindings = Some (choices q).
Proof.
  split.
  - destruct v; try discriminate. unfold new_question.
    destruct (forallb _ bindings) eqn:Hkeys; [| discriminate].
    destruct (lookup "question_id" bindings) eqn:Hi; [| discriminate].
    destruct (lookup "question_text" bindings) eqn:Ht; [| discriminate].
    destruct (lookup "answer_index" bindings) eqn:Ha; [| discriminate].
    destruct (lookup "choices" bindings) eqn:Hc; [| discriminate].
    intros E. inversion E; subst. simpl. exists bindings.
    repeat split; assumption || reflexivity.
  - intros (bindings & -> & Hkeys & Hi & Ht & Ha & Hc). unfold new_question.
    rewrite Hkeys, Hi, Ht, Ha, Hc. now destruct q.
Qed.

Lemma new_question_raises (v : pyval) (e : exn) :
  new_question v = Raise e -> e = TypeError.
Proof.
  destruct v; unfold new_question; try (intros E; now inversion E).
  destruct (forallb _ bindings); [| intros E; now inversion E].
  destruct (lookup "question_id" bindings); [| intros E; now inversion E].
  destruct (lookup "question_text" bindings); [| intros E; now inversion E].
  destruct (lookup "answer_index" bindings); [| intros E; now inversion E].
  destruct (lookup "choices" bindings); intros E; now inversion E.
Qed.

(** C8, as the code has it: building a question succeeds exactly on a
    mapping whose keys are all among [question_id], [question_text],
    [answer_index] and [choices] and that binds all four, and stores the
    four values as they are, of whatever shape; anything else raises
    Python's [TypeError].  [fetch_random_question] hands the body of a 200
    response to that constructor and to nothing else. *)
Theorem new_question_checks_names_only :
  (forall v q,
      new_question v = Ok q <->
      exists bindings,
        v = PDict bindings
        /\ forallb (fun kv => is_parameter (fst kv)) bindings = true
        /\ lookup "question_id" bindings = Some (question_id q)
        /\ lookup "question_text" bindings = Some (question_text q)
        /\ lookup "answer_index" bindings = Some (answer_index q)
        /\ lookup "choices" bindings = Some (choices q))
  /\ (forall v e, new_question v = Raise e -> e = TypeError)
  /\ (forall w r sv v,
        serve random_question_url (srv w) = (Some r, sv) ->
        status_code r = 200 ->
        body r = Some v ->
        fst (fetch_random_question w) = new_question v).
Proof.
  split; [| split].
  - apply new_question_ok.
  - apply new_question_raises.
  - intros w r sv v Hserve Hstatus Hbody.
    rewrite fetch_random_question_run. unfold received, question_of.
    rewrite Hserve. simpl. now rewrite Hstatus, Hbody.
Qed.

End Errors.

(** ** The game loop *)

Section Loop.
Context {T : PyText} {Q : QuizServer}.

(** The ways an event can be handled without an exception. *)
Lemma handle_event_cases (ev : event) (st st' : locals) (w w' : world) :
  handle_event ev st w = (Ok st', w') ->
  (is_quit ev = true /\ st' = set_game_running false st /\ w' = w)
  \/ (exists n,
        ev = KEYDOWN K_DOWN /\ py_len (choices (question st)) = Ok n /\ n <> 0
        /\ st' = set_selected_option ((selected_option st + 1) mod n) st
        /\ w' = w)
  \/ (exists n,
        ev = KEYDOWN K_UP /\ py_len (choices (question st)) = Ok n /\ n <> 0
        /\ st' = set_selected_option ((selected_option st - 1) mod n) st
        /\ w' = w)
  \/ (exists correct,
        ev = KEYDOWN K_RETURN
        /\ check_answer (question st) (selected_option st) w = (Ok correct, w')
        /\ py_truthy correct = false /\ st' = st)
  \/ (exists correct w1 q,
        ev = KEYDOWN K_RETURN
        /\ check_answer (question st) (selected_option st) w = (Ok correct, w1)
        /\ py_truthy correct = true
        /\ fetch_random_question w1 = (Ok q, w')
        /\ st' = replaced q st)
  \/ (is_quit ev = false /\ ev <> KEYDOWN K_DOWN /\ ev <> KEYDOWN K_UP
      /\ ev <> KEYDOWN K_RETURN /\ st' = st /\ w' = w).
Proof.
  intros Hrun. destruct ev as [| [] |].
  - left. now inversion Hrun.
  - left. now inversion Hrun.
  - right; left. unfold handle_event in Hrun. simpl in Hrun. run.
    destruct (py_len _) as [n |]; [| discriminate].
    unfold py_mod in Hrun. destruct (Z.eqb_spec n 0); [discriminate |].
    inversion Hrun; subst. now exists n.
  - right; right; left. unfold handle_event in Hrun. simpl in Hrun. run.
    destruct (py_len _) as [n |]; [| discriminate].
    unfold py_mod in Hrun. destruct (Z.eqb_spec n 0); [discriminate |].
    inversion Hrun; subst. now exists n.
  - rewrite confirm_run in Hrun.
    destruct (check_answer _ _ w) as [[correct | e] w1] eqn:Hcheck;
      [| discriminate].
    destruct (py_truthy correct) eqn:Htruthy.
    + do 4 right; left.
      destruct (fetch_random_question w1) as [[q | e] w2] eqn:Hfetch;
        inversion Hrun; subst.
      now exists correct, w1, q.
    + do 3 right; left. inversion Hrun; subst. now exists correct.
  - do 5 right. inversion Hrun. repeat split; discriminate || reflexivity.
  - do 5 right. inversion Hrun. repeat split; discriminate || reflexivity.
Qed.

(** An event keeps the score, and keeps the loop running unless it is a
    quit command. *)
Lemma handle_event_ok (ev : event) (st st' : locals) (w w' : world) :
  handle_event ev st w = (Ok st', w') ->
  score st' = score st
  /\ game_running st' = game_running st && negb (is_quit ev).
Proof.
  intros Hrun.
  destruct (handle_event_cases _ _ _ _ _ Hrun)
    as [(Hq & -> & _) | [(n & -> & _ & _ & -> & _) | [(n & -> & _ & _ & -> & _)
       | [(c & -> & _ & _ & ->) | [(c & w1 & q & -> & _ & _ & _ & ->)
       | (Hq & _ & _ & _ & -> & _)]]]]]; simpl;
    try rewrite Hq; simpl; rewrite ?andb_true_r, ?andb_false_r; auto.
Qed.

Lemma handle_events_ok (events : list event) :
  forall (st st' : locals) (w w' : world),
    handle_events events st w = (Ok st', w') ->
    score st' = score st
    /\ game_running st' = game_running st && negb (existsb is_quit events).
Proof.
  induction events as [| ev rest IH]; intros st st' w w' Hrun.
  - inversion Hrun; subst. now rewrite andb_true_r.
  - cbn [handle_events] in Hrun. unfold bind in Hrun.
    destruct (handle_event ev st w) as [[st1 | e] w1] eqn:Hstep;
      [| discriminate].
    destruct (handle_event_ok _ _ _ _ _ Hstep) as [Hscore Hrunning].
    destruct (IH _ _ _ _ Hrun) as [Hscore' Hrunning'].
    split; [congruence |].
    rewrite Hrunning', Hrunning. cbn [existsb].
    rewrite negb_orb. now rewrite andb_assoc.
Qed.

(** *** Exceptions other than [SystemExit] *)

Lemma py_getitem_no_exit (v : pyval) (k : string) (e : exn) :
  py_getitem v k = Raise e -> e <> SystemExit.
Proof.
  destruct v; simpl; try (intros E; inversion E; subst; discriminate).
  destruct (lookup k bindings); intros E; inversion E; subst; discriminate.
Qed.

Lemma py_len_no_exit (v : pyval) (e : exn) :
  py_len v = Raise e -> e <> SystemExit.
Proof. destruct v; simpl; intros E; inversion E; subst; discriminate. Qed.

Lemma error_of_no_exit {A} (r : response) (e : exn) :
  @error_of A T r = Raise e -> e <> SystemExit.
Proof.
  unfold error_of. destruct (status_code r =? 400).
  - destruct (body r) as [v |]; [| intros E; inversion E; subst; discriminate].
    destruct (py_getitem v "message") eqn:Hm; intros E; inversion E; subst.
    + discriminate.
    + eapply py_getitem_no_exit; eassumption.
  - intros E; inversion E; subst; discriminate.
Qed.

Lemma answer_of_no_exit (r : response) (e : exn) :
  answer_of r = Raise e -> e <> SystemExit.
Proof.
  unfold answer_of. destruct (status_code r =? 200).
  - destruct (body r) as [v |]; [| intros E; inversion E; subst; discriminate].
    apply py_getitem_no_exit.
  - apply error_of_no_exit.
Qed.

Lemma question_of_no_exit (r : response) (e : exn) :
  question_of r = Raise e -> e <> SystemExit.
Proof.
  unfold question_of. destruct (status_code r =? 200).
  - destruct (body r) as [v |]; [| intros E; inversion E; subst; discriminate].
    intros E. apply new_question_raises in E. subst. discriminate.
  - apply error_of_no_exit.
Qed.

Lemma check_answer_no_exit (q : MultipleChoiceQuestion) (s : Z) (w w' : world) (e : exn) :
  check_answer q s w = (Raise e, w') -> e <> SystemExit.
Proof.
  rewrite check_answer_run. unfold received. intros E. inversion E as [[He Hw]].
  destruct (fst (serve _ _)); [| inversion He; subst; discriminate].
  eapply answer_of_no_exit; eassumption.
Qed.

Lemma fetch_random_question_no_exit (w w' : world) (e : exn) :
  fetch_random_question w = (Raise e, w') -> e <> SystemExit.
Proof.
  rewrite fetch_random_question_run. unfold received.
  intros E. inversion E as [[He Hw]].
  destruct (fst (serve _ _)); [| inversion He; subst; discriminate].
  eapply question_of_no_exit; eassumption.
Qed.

Lemma handle_event_no_exit (ev : event) (st : locals) (w w' : world) (e : exn) :
  handle_event ev st w = (Raise e, w') -> e <> SystemExit.
Proof.
  destruct ev as [| [] |]; try (intros E; inversion E; fail).
  - unfold handle_event. simpl. run.
    destruct (py_len _) as [n | e1] eqn:Hlen.
    + unfold py_mod. destruct (n =? 0); intros E; inversion E; subst; discriminate.
    + intros E; inversion E; subst. eapply py_len_no_exit; eassumption.
  - unfold handle_event. simpl. run.
    destruct (py_len _) as [n | e1] eqn:Hlen.
    + unfold py_mod. destruct (n =? 0); intros E; inversion E; subst; discriminate.
    + intros E; inversion E; subst. eapply py_len_no_exit; eassumption.
  - rewrite confirm_run.
    destruct (check_answer _ _ w) as [[correct | e1] w1] eqn:Hcheck.
    + destruct (py_truthy correct); [| intros E; inversion E].
      destruct (fetch_random_question w1) as [[q | e2] w2] eqn:Hfetch;
        intros E; inversion E; subst.
      eapply fetch_random_question_no_exit; eassumption.
    + intros E; inversion E; subst.
      eapply check_answer_no_exit; eassumption.
Qed.

Lemma handle_events_no_exit (events : list event) :
  forall (st : locals) (w w' : world) (e : exn),
    handle_events events st w = (Raise e, w') -> e <> SystemExit.
Proof.
  induction events as [| ev rest IH]; intros st w w' e Hrun.
  - inversion Hrun.
  - cbn [handle_events] in Hrun. unfold bind in Hrun.
    destruct (handle_event ev st w) as [[st1 | e1] w1] eqn:Hstep.
    + eapply IH; eassumption.
    + inversion Hrun; subst. eapply handle_event_no_exit; eassumption.
Qed.

(** *** Drawing *)

Lemma draw_options_ok (options : list pyval) :
  forall (i s : Z) (w : world),
    exists calls, draw_options i options s w = (Ok tt, show calls w).
Proof.
  induction options as [| o rest IH]; intros i s w.
  - exists []. unfold show. simpl. run. rewrite app_nil_r. now destruct w.
  - cbn [draw_options]. run.
    match goal with
    | |- context [draw_options ?j rest s ?w1] =>
        destruct (IH j s w1) as [calls Hrest]; rewrite Hrest
    end.
    eexists (_ :: calls). unfold show. simpl.
    now rewrite <- app_assoc.
Qed.

(** Drawing a question either completes or stops on choices that cannot
    be iterated. *)
Lemma draw_question_result (q : MultipleChoiceQuestion) (s sc : Z) (w : world) :
  exists calls,
    draw_question q s sc w = (Ok tt, show calls w)
    \/ draw_question q s sc w = (Raise TypeError, show calls w).
Proof.
  unfold draw_question. run.
  destruct (py_iter (choices q)) as [options | e] eqn:Hiter.
  - match goal with
    | |- context [draw_options 0 options s ?w1] =>
        destruct (draw_options_ok options 0 s w1) as [calls Hdraw];
          rewrite Hdraw
    end.
    eexists. left. unfold show. simpl. rewrite <- !app_assoc. reflexivity.
  - assert (e = TypeError) as ->
        by (destruct (choices q); simpl in Hiter; congruence).
    eexists. right. unfold show. simpl. rewrite <- !app_assoc. reflexivity.
Qed.

(** *** The loop and [main] *)

(** The loop keeps the score; it ends stopped exactly when it started
    stopped or met a quit command; it never raises [SystemExit]. *)
Lemma game_loop_result (frames : list (list event)) :
  forall (st : locals) (w w' : world) (r : result locals),
    game_loop frames st w = (r, w') ->
    match r with
    | Ok st' =>
        score st' = score st
        /\ game_running st' = game_running st && negb (has_quit frames)
    | Raise e => e <> SystemExit
    end.
Proof.
  induction frames as [| events later IH]; intros st w w' r Hrun.
  - simpl in Hrun. destruct (game_running st) eqn:Hst;
      inversion Hrun; subst; now rewrite Hst.
  - cbn [game_loop] in Hrun. destruct (game_running st) eqn:Hst.
    + unfold bind in Hrun.
      destruct (handle_events events st w) as [[st1 | e] w1] eqn:Hevents.
      * destruct (handle_events_ok _ _ _ _ _ Hevents) as [Hscore Hrunning].
        destruct (draw_question_result (question st1) (selected_option st1)
                                       (score st1) w1) as [calls [Hd | Hd]];
          rewrite Hd in Hrun.
        -- specialize (IH _ _ _ _ Hrun). destruct r as [st' | e]; [| exact IH].
           destruct IH as [Hscore' Hrunning']. split; [congruence |].
           rewrite Hrunning', Hrunning, Hst. unfold has_quit. cbn [existsb].
           now rewrite negb_orb.
        -- inversion Hrun; subst. discriminate.
      * inversion Hrun; subst. eapply handle_events_no_exit; eassumption.
    + inversion Hrun; subst. now rewrite Hst.
Qed.

(** [main], stage by stage. *)
Lemma main_run (frames : list (list event)) (w : world) :
  main frames w
  = match fetch_random_question (setup w) with
    | (Ok q, w1) =>
        match game_loop frames (initial q) w1 with
        | (Ok st, w2) =>
            if game_running st then (Ok st, w2)
            else (Raise SystemExit, show (end_calls (score st)) w2)
        | (Raise e, w2) => (Raise e, w2)
        end
    | (Raise e, w1) => (Raise e, w1)
    end.
Proof.
  unfold main. run. unfold setup, show. simpl. rewrite <- app_assoc. simpl.
  match goal with
  | |- context [fetch_random_question ?w0] =>
      destruct (fetch_random_question w0) as [[q | e] w1]; [| reflexivity]
  end.
  fold (initial q).
  destruct (game_loop frames (initial q) w1) as [[st | e] w2]; [| reflexivity].
  destruct (game_running st); [reflexivity |].
  simpl. rewrite <- !app_assoc. reflexivity.
Qed.

(** What [main] can end with: the locals of a run cut short while still
    running, [SystemExit] after the end screen, or another exception. *)
Lemma main_result (frames : list (list event)) (w w' : world) (r : result locals) :
  main frames w = (r, w') ->
  match r with
  | Ok st => game_running st = true /\ score st = 0 /\ has_quit frames = false
  | Raise SystemExit =>
      has_quit frames = true
      /\ exists before, shown w' = (before ++ end_calls 0)%list
  | Raise _ => True
  end.
Proof.
  rewrite main_run.
  destruct (fetch_random_question (setup w)) as [[q | e] w1] eqn:Hfetch.
  - destruct (game_loop frames (initial q) w1) as [[st | e] w2] eqn:Hloop.
    + pose proof (game_loop_result _ _ _ _ _ Hloop) as [Hscore Hrunning].
      simpl in Hscore, Hrunning.
      destruct (game_running st) eqn:Hst; intros E; inversion E; subst.
      * repeat split; try assumption.
        now destruct (has_quit frames).
      * split; [now destruct (has_quit frames) |].
        exists (shown w2). simpl. now rewrite Hscore.
    + pose proof (game_loop_result _ _ _ _ _ Hloop) as Hexit.
      intros E; inversion E; subst. destruct e; try exact I. congruence.
  - intros E; inversion E; subst.
    pose proof (fetch_random_question_no_exit _ _ _ Hfetch).
    destruct e; try exact I. congruence.
Qed.

(** *** Reachable states *)

Lemma handle_events_reachable (events : list event) :
  forall (st st' : locals) (w w' : world),
    reachable st w ->
    handle_events events st w = (Ok st', w') ->
    reachable st' w'.
Proof.
  induction events as [| ev rest IH]; intros st st' w w' Hreach Hrun.
  - now inversion Hrun; subst.
  - cbn [handle_events] in Hrun. unfold bind in Hrun.
    destruct (handle_event ev st w) as [[st1 | e] w1] eqn:Hstep;
      [| discriminate].
    eapply IH; [| eassumption]. eapply reach_event; eassumption.
Qed.

Lemma game_loop_reachable (frames : list (list event)) :
  forall (st st' : locals) (w w' : world),
    reachable st w ->
    game_loop frames st w = (Ok st', w') ->
    reachable st' w'.
Proof.
  induction frames as [| events later IH]; intros st st' w w' Hreach Hrun.
  - simpl in Hrun. now destruct (game_running st); inversion Hrun; subst.
  - cbn [game_loop] in Hrun.
    destruct (game_running st); [| now inversion Hrun; subst].
    unfold bind in Hrun.
    destruct (handle_events events st w) as [[st1 | e] w1] eqn:Hevents;
      [| discriminate].
    destruct (draw_question _ _ _ w1) as [[[] | e] w2] eqn:Hdraw;
      [| discriminate].
    eapply IH; [| eassumption]. eapply reach_draw; [| eassumption].
    eapply handle_events_reachable; eassumption.
Qed.

Lemma main_reachable (frames : list (list event)) (st : locals) (w w' : world) :
  main frames w = (Ok st, w') -> reachable st w'.
Proof.
  rewrite main_run.
  destruct (fetch_random_question (setup w)) as [[q | e] w1] eqn:Hfetch;
    [| discriminate].
  destruct (game_loop frames (initial q) w1) as [[st1 | e] w2] eqn:Hloop;
    [| discriminate].
  destruct (game_running st1); [| discriminate].
  intros E; inversion E; subst.
  eapply game_loop_reachable; [| eassumption].
  eapply reach_start; eassumption.
Qed.

Lemma reachable_score (st : locals) (w : world) :
  reachable st w -> score st = 0.
Proof.
  induction 1 as [w w' q _ | ev st st' w w' _ IH Hstep | st w w' _ IH _].
  - reflexivity.
  - destruct (handle_event_ok _ _ _ _ _ Hstep) as [Hscore _]. congruence.
  - exact IH.
Qed.

Lemma in_range_initial (q : MultipleChoiceQuestion) (items : list pyval) :
  choices q = PList items -> items <> [] -> in_range (initial q).
Proof.
  intros Hc Hne. exists items. split; [exact Hc |].
  pose proof (length_pos items Hne). simpl. lia.
Qed.

Lemma handle_event_in_range (ev : event) (st st' : locals) (w w' : world) :
  questions_have_choices ->
  in_range st ->
  handle_event ev st w = (Ok st', w') ->
  in_range st'.
Proof.
  intros Hq (items & Hc & Hs) Hrun.
  destruct (handle_event_cases _ _ _ _ _ Hrun)
    as [(_ & -> & _) | [(n & _ & Hlen & Hn & -> & _)
       | [(n & _ & Hlen & Hn & -> & _)
       | [(c & _ & _ & _ & ->) | [(c & w1 & q & _ & _ & _ & Hfetch & ->)
       | (_ & _ & _ & _ & -> & _)]]]]].
  - now exists items.
  - exists items. split; [exact Hc |]. simpl.
    rewrite Hc, py_len_list in Hlen. inversion Hlen; subst n.
    apply Z.mod_pos_bound. lia.
  - exists items. split; [exact Hc |]. simpl.
    rewrite Hc, py_len_list in Hlen. inversion Hlen; subst n.
    apply Z.mod_pos_bound. lia.
  - now exists items.
  - destruct (Hq _ _ _ Hfetch) as (items' & Hc' & Hne).
    exists items'. split; [exact Hc' |].
    pose proof (length_pos items' Hne). simpl. lia.
  - now exists items.
Qed.

Lemma reachable_in_range (st : locals) (w : world) :
  questions_have_choices -> reachable st w -> in_range st.
Proof.
  intros Hq.
  induction 1 as [w w' q Hfetch | ev st st' w w' _ IH Hstep | st w w' _ IH _].
  - destruct (Hq _ _ _ Hfetch) as (items & Hc & Hne).
    now apply (in_range_initial q items).
  - eapply handle_event_in_range; eassumption.
  - exact IH.
Qed.

Lemma is_quit_true (ev : event) :
  is_quit ev = true <-> ev = QUIT \/ ev = KEYDOWN K_q.
Proof.
  split.
  - destruct ev as [| [] |]; simpl; intros E; try discriminate; auto.
  - now intros [-> | ->].
Qed.

(** C6: an event handled while the loop runs stops it if and only if it
    is the window-close event or the q key, and those two always stop it;
    once stopped, no event starts it again, and the loop, found stopped,
    reads and draws nothing more.  [main] returns from a finite run only
    while still running, with no quit command met; it ends in [SystemExit]
    only after a quit command, the last calls to the display being the end
    screen, the wait of 3000 ms and the shutdown; and whenever the loop
    ends stopped, [main] ends that way. *)
Theorem quit_is_the_only_way_out :
  (forall ev st w st' w',
      handle_event ev st w = (Ok st', w') ->
      game_running st = true ->
      (game_running st' = false <-> ev = QUIT \/ ev = KEYDOWN K_q))
  /\ (forall ev st w,
        ev = QUIT \/ ev = KEYDOWN K_q ->
        handle_event ev st w = (Ok (set_game_running false st), w))
  /\ (forall ev st w st' w',
        handle_event ev st w = (Ok st', w') ->
        game_running st = false ->
        game_running st' = false)
  /\ (forall frames st w,
        game_running st = false ->
        game_loop frames st w = (Ok st, w))
  /\ (forall frames w st w',
        main frames w = (Ok st, w') ->
        game_running st = true /\ has_quit frames = false)
  /\ (forall frames w w',
        main frames w = (Raise SystemExit, w') ->
        has_quit frames = true
        /\ exists before score, shown w' = (before ++ end_calls score)%list)
  /\ (forall frames w q w1 st w2,
        fetch_random_question (setup w) = (Ok q, w1) ->
        game_loop frames (initial q) w1 = (Ok st, w2) ->
        game_running st = false ->
        main frames w = (Raise SystemExit, show (end_calls (score st)) w2)).
Proof.
  split; [| split; [| split; [| split; [| split; [| split]]]]].
  - intros ev st w st' w' Hrun Hst.
    destruct (handle_event_ok _ _ _ _ _ Hrun) as [_ Hrunning].
    rewrite Hst in Hrunning. simpl in Hrunning.
    rewrite <- is_quit_true, Hrunning. now destruct (is_quit ev).
  - now intros ev st w [-> | ->].
  - intros ev st w st' w' Hrun Hst.
    destruct (handle_event_ok _ _ _ _ _ Hrun) as [_ Hrunning].
    now rewrite Hst in Hrunning.
  - intros frames st w Hst. destruct frames; simpl; now rewrite Hst.
  - intros frames w st w' Hmain.
    now destruct (main_result _ _ _ _ Hmain) as (Hst & _ & Hquit).
  - intros frames w w' Hmain.
    destruct (main_result _ _ _ _ Hmain) as (Hquit & before & Hshown).
    split; [exact Hquit | now exists before, 0].
  - intros frames w q w1 st w2 Hfetch Hloop Hst.
    now rewrite main_run, Hfetch, Hloop, Hst.
Qed.

(** C7: no event changes the score, so it is 0 in every reachable state
    and in the locals [main] returns; the end screen shows 0. *)
Theorem score_is_never_incremented :
  (forall ev st w st' w',
      handle_event ev st w = (Ok st', w') -> score st' = score st)
  /\ (forall st w, reachable st w -> score st = 0)
  /\ (forall frames w st w', main frames w = (Ok st, w') -> score st = 0)
  /\ (forall frames w w',
        main frames w = (Raise SystemExit, w') ->
        (exists before, shown w' = (before ++ end_calls 0)%list)
        /\ In (render_blit (PStr "Your Score: 0") 300 300 FONT WHITE) (shown w')).
Proof.
  split; [| split; [| split]].
  - intros ev st w st' w' Hrun.
    now destruct (handle_event_ok _ _ _ _ _ Hrun).
  - apply reachable_score.
  - intros frames w st w' Hmain.
    now destruct (main_result _ _ _ _ Hmain) as (_ & Hscore & _).
  - intros frames w w' Hmain.
    destruct (main_result _ _ _ _ Hmain) as (_ & before & Hshown).
    split; [now exists before |].
    rewrite Hshown. apply in_or_app. right. simpl. tauto.
Qed.

(** C10: if every question that arrives has a non-empty list of choices,
    the selected option is an index into the choices of the current
    question in every reachable state: it is one at the start, every
    event keeps it one, and so it is one in the locals of any run of
    [main]. *)
Theorem selected_option_stays_in_range :
  questions_have_choices ->
  (forall w w' q, fetch_random_question w = (Ok q, w') -> in_range (initial q))
  /\ (forall ev st w st' w',
        in_range st -> handle_event ev st w = (Ok st', w') -> in_range st')
  /\ (forall st w, reachable st w -> in_range st)
  /\ (forall frames w st w', main frames w = (Ok st, w') -> in_range st).
Proof.
  intros Hq. split; [| split; [| split]].
  - intros w w' q Hfetch. destruct (Hq _ _ _ Hfetch) as (items & Hc & Hne).
    now apply (in_range_initial q items).
  - intros ev st w st' w' Hin Hrun. eapply handle_event_in_range; eassumption.
  - intros st w. now apply reachable_in_range.
  - intros frames w st w' Hmain.
    eapply reachable_in_range; [exact Hq |]. eapply main_reachable; eassumption.
Qed.

End Loop.

(** ** The properties on concrete runs *)

(** C1 on the service with one question: B is selected, the enter key
    brings the question anew and the selection back to 0. *)
Lemma confirm_replaces_iff_correct_on_abc :
  fst (@handle_event plain_text one_question (KEYDOWN K_RETURN) (playing 1) opening)
  = Ok (playing 0).
Proof.
  pose (w1 := snd (@check_answer plain_text one_question abc 1 opening)).
  pose (w2 := snd (@fetch_random_question plain_text one_question w1)).
  destruct (proj1 (proj2 (@confirm_replaces_iff_correct plain_text one_question))
                  (playing 1) opening (PBool true) w1 abc w2
                  eq_refl eq_refl eq_refl) as [Hrun _].
  rewrite Hrun. reflexivity.
Defined.

(** C3 on the same service: A is selected, the enter key changes nothing. *)
Lemma wrong_answer_changes_nothing_on_abc :
  fst (@handle_event plain_text one_question (KEYDOWN K_RETURN) (playing 0) opening)
  = Ok (playing 0).
Proof.
  pose (w1 := snd (@check_answer plain_text one_question abc 0 opening)).
  destruct (@wrong_answer_changes_nothing plain_text one_question
              (playing 0) opening w1 (PBool false) eq_refl eq_refl) as [Hrun _].
  rewrite Hrun. reflexivity.
Defined.

(** C4 on the last of three choices: down wraps to 0, up goes to 1. *)
Lemma move_selection_wraps_on_abc :
  @handle_event plain_text scripted (KEYDOWN K_DOWN) (playing 2) (fresh [])
  = (Ok (playing 0), fresh [])
  /\ @handle_event plain_text scripted (KEYDOWN K_UP) (playing 2) (fresh [])
     = (Ok (playing 1), fresh []).
Proof.
  destruct (@move_selection_wraps plain_text scripted (playing 2) (fresh [])
              [PStr "A"; PStr "B"; PStr "C"] eq_refl)
    as (Hdown & Hup & _ & _).
  - discriminate.
  - simpl. lia.
  - split; [exact Hdown | exact Hup].
Defined.

(** C5 on three choices, from the middle one. *)
Lemma selection_cycles_on_abc :
  @handle_events plain_text scripted
     [KEYDOWN K_DOWN; KEYDOWN K_DOWN; KEYDOWN K_DOWN] (playing 1) (fresh [])
  = (Ok (playing 1), fresh [])
  /\ @handle_events plain_text scripted
       [KEYDOWN K_UP; KEYDOWN K_UP; KEYDOWN K_UP] (playing 1) (fresh [])
     = (Ok (playing 1), fresh []).
Proof.
  destruct (@selection_cycles plain_text scripted (playing 1) (fresh [])
              [PStr "A"; PStr "B"; PStr "C"] eq_refl)
    as (Hdown & Hup & _ & _).
  - simpl. lia.
  - simpl. lia.
  - split; [exact Hdown | exact Hup].
Defined.

(** C9 on two questions that share an identifier and nothing else. *)
Lemma check_answer_is_the_server_verdict_on_abc :
  @check_answer plain_text one_question abc 1 opening
  = @check_answer plain_text one_question
      {| question_id := PStr "q1"; question_text := PStr "Pick A";
         answer_index := PInt 0; choices := PList [PStr "B"; PStr "A"] |}
      1 opening.
Proof.
  destruct (@check_answer_is_the_server_verdict plain_text one_question abc
              {| question_id := PStr "q1"; question_text := PStr "Pick A";
                 answer_index := PInt 0; choices := PList [PStr "B"; PStr "A"] |}
              1 opening eq_refl) as (_ & _ & _ & Hsame & _).
  exact Hsame.
Defined.

(** C2 on a refusal with status 400: the message follows the prefix. *)
Lemma bad_request_is_status_400_only_on_refusal :
  fst (@fetch_random_question plain_text scripted
         (fresh [refusal 400 "no questions available"]))
  = Raise (GameException "Bad request: no questions available").
Proof.
  destruct (@bad_request_is_status_400_only plain_text scripted
              (fresh [refusal 400 "no questions available"])
              {| status_code := 400;
                 body := Some (PDict [("message", PStr "no questions available")]) |}
              [] abc 0) as [Hfetch _].
  destruct (Hfetch eq_refl) as [H400 _].
  exact (H400 [("message", PStr "no questions available")]
              "no questions available" eq_refl eq_refl eq_refl).
Defined.

(** C2 as stated fails on status 404: a client error whose body has a
    message, reported by both calls with the fixed text, of which the
    message is no part. *)
Lemma status_404_message_is_dropped :
  (400 <=? 404) && (404 <? 500) = true
  /\ fst (@fetch_random_question plain_text scripted
            (fresh [refusal 404 "no such question"]))
     = Raise (GameException unreachable_message)
  /\ fst (@check_answer plain_text scripted abc 1
            (fresh [refusal 404 "no such question"]))
     = Raise (GameException unreachable_message)
  /\ index 0 "no such question" unreachable_message = None.
Proof. repeat split. Qed.

(** C8 on the body of the first example question. *)
Lemma new_question_checks_names_only_on_abc :
  new_question abc_question = Ok abc.
Proof.
  apply (proj1 (@new_question_checks_names_only plain_text scripted) abc_question abc).
  exists [("question_id", PStr "q1"); ("question_text", PStr "Pick B");
          ("answer_index", PInt 1);
          ("choices", PList [PStr "A"; PStr "B"; PStr "C"])].
  repeat split.
Defined.

(** C8 as stated fails: four fields of the wrong shape make a question, by
    the constructor and by [fetch_random_question] alike, and an absent
    field raises [TypeError]. *)
Lemma misshapen_question_is_accepted :
  new_question misshapen_question
  = Ok {| question_id := PNone; question_text := PInt 7;
          answer_index := PStr "two"; choices := PInt 5 |}
  /\ fst (@fetch_random_question plain_text scripted
            (fresh [ok_json misshapen_question]))
     = Ok {| question_id := PNone; question_text := PInt 7;
             answer_index := PStr "two"; choices := PInt 5 |}
  /\ new_question (PDict [("question_id", PStr "q1")]) = Raise TypeError.
Proof. repeat split. Qed.

(** C6 on a run that answers, then quits: it ends in [SystemExit], the
    display closing on the end screen. *)
Lemma quit_is_the_only_way_out_on_abc :
  fst (@main plain_text one_question
         [[KEYDOWN K_DOWN; KEYDOWN K_RETURN]; [QUIT]] opening)
  = Raise SystemExit.
Proof.
  pose (w1 := snd (@fetch_random_question plain_text one_question (setup opening))).
  pose (run := @game_loop plain_text one_question
                 [[KEYDOWN K_DOWN; KEYDOWN K_RETURN]; [QUIT]] (initial abc) w1).
  assert (Hfetch : @fetch_random_question plain_text one_question (setup opening)
                   = (Ok abc, w1))
    by (vm_compute; reflexivity).
  assert (Hloop : run = (Ok (set_game_running false (playing 0)), snd run))
    by (vm_compute; reflexivity).
  pose proof (proj2 (proj2 (proj2 (proj2 (proj2 (proj2
                (@quit_is_the_only_way_out plain_text one_question))))))
                [[KEYDOWN K_DOWN; KEYDOWN K_RETURN]; [QUIT]] opening abc w1
                (set_game_running false (playing 0)) (snd run)
                Hfetch Hloop eq_refl) as Hmain.
  rewrite Hmain. reflexivity.
Defined.

(** C7 on the same run: the end screen shows a score of 0. *)
Lemma score_is_never_incremented_on_abc :
  In (render_blit (PStr "Your Score: 0") 300 300 FONT WHITE)
     (shown (snd (@main plain_text one_question
                    [[KEYDOWN K_DOWN; KEYDOWN K_RETURN]; [QUIT]] opening))).
Proof.
  pose (run := @main plain_text one_question
                 [[KEYDOWN K_DOWN; KEYDOWN K_RETURN]; [QUIT]] opening).
  assert (Hrun : run = (Raise SystemExit, snd run)) by (vm_compute; reflexivity).
  exact (proj2 (proj2 (proj2 (proj2 (@score_is_never_incremented plain_text one_question)))
                  [[KEYDOWN K_DOWN; KEYDOWN K_RETURN]; [QUIT]] opening (snd run) Hrun)).
Defined.

(** C10 on the service with one question, after an up key from 0. *)
Lemma selected_option_stays_in_range_on_abc :
  @in_range (playing 2).
Proof.
  assert (Hq : @questions_have_choices plain_text one_question).
  { intros w w' q Hfetch. rewrite fetch_random_question_run in Hfetch.
    inversion Hfetch. exists [PStr "A"; PStr "B"; PStr "C"].
    split; [reflexivity | discriminate]. }
  pose (run := @main plain_text one_question [[KEYDOWN K_UP]] opening).
  assert (Hrun : run = (Ok (playing 2), snd run)) by (vm_compute; reflexivity).
  exact (proj2 (proj2 (proj2 (@selected_option_stays_in_range plain_text one_question Hq)))
               [[KEYDOWN K_UP]] opening (playing 2) (snd run) Hrun).
Defined.

(** The scenario of the specification: three choices, down twice, up once,
    enter; the check is sent for index 1, the service says correct, a new
    question is asked for and the selection is back at 0. *)
Example scenario_down_down_up_enter :
  @handle_events plain_text one_question
     [KEYDOWN K_DOWN; KEYDOWN K_DOWN; KEYDOWN K_UP; KEYDOWN K_RETURN]
     (playing 0) opening
  = (Ok (playing 0),
     {| srv := (tt : @server one_question);
        sent := ["http://127.0.0.1:5000/api/question/q1/answer/1";
                 "http://127.0.0.1:5000/api/random-question"];
        shown := [] |}).
Proof. vm_compute. reflexivity. Qed.

(** The events that follow a quit command in the same batch are still
    handled; when one of them makes a client call that fails, the exception
    ends the run and no end screen is drawn. *)
Example scenario_failure_after_quit :
  @main plain_text scripted [[QUIT; KEYDOWN K_RETURN]]
        (fresh [ok_json abc_question; refusal 500 "down"])
  = (Raise (GameException unreachable_message),
     {| srv := ([] : @server scripted);
        sent := ["http://127.0.0.1:5000/api/random-question";
                 "http://127.0.0.1:5000/api/question/q1/answer/0"];
        shown := [set_mode 800 600; set_caption "Quiz Game"] |}).
Proof. vm_compute. reflexivity. Qed.

(** ** Drawing a question *)

Section Drawing.
Context {T : PyText} {Q : QuizServer}.












End Drawing.

(** ** Requests *)

Section Requests.
Context {T : PyText} {Q : QuizServer}.

(** X4: each client call sends one request and one only, whatever the
    service answers and whether the call returns or raises; it draws
    nothing. *)
Theorem one_request_per_call (q : MultipleChoiceQuestion) (s : Z) (w : world) :
  sent (snd (fetch_random_question w)) = (sent w ++ [random_question_url])%list
  /\ shown (snd (fetch_random_question w)) = shown w
  /\ sent (snd (check_answer q s w)) = (sent w ++ [answer_url q s])%list
  /\ shown (snd (check_answer q s w)) = shown w.
Proof.
  rewrite fetch_random_question_run, check_answer_run. now repeat split.
Qed.

(** The down and up keys as one case. *)
Lemma move_run (k : key) (delta : Z) (st : locals) (w : world) :
  (k = K_DOWN /\ delta = 1) \/ (k = K_UP /\ delta = -1) ->
  handle_event (KEYDOWN k) st w
  = (match py_len (choices (question st)) with
     | Ok n =>
         if n =? 0 then Raise ZeroDivisionError
         else Ok (set_selected_option ((selected_option st + delta) mod n) st)
     | Raise e => Raise e
     end, w).
Proof.
  intros [[-> ->] | [-> ->]]; unfold handle_event; simpl; run;
    destruct (py_len _) as [n | e]; try reflexivity;
    unfold py_mod; now destruct (n =? 0).
Qed.

(** X5: the enter key apart, no event asks the service anything or draws:
    it leaves the world as it is, whether it is handled or raises. *)
Theorem only_enter_reaches_the_service (ev : event) (st : locals) (w : world) :
  ev <> KEYDOWN K_RETURN ->
  snd (handle_event ev st w) = w.
Proof.
  intros Hev. destruct ev as [| [] |]; try reflexivity.
  - now rewrite (move_run K_DOWN 1) by auto.
  - now rewrite (move_run K_UP (-1)) by auto.
  - contradiction.
Qed.

(** X6: the enter key draws nothing and sends the check of the selected
    option, followed by the request for a new question or by nothing,
    whether it is handled or raises. *)
Theorem enter_sends_one_or_two_requests (st : locals) (w : world) :
  let w' := snd (handle_event (KEYDOWN K_RETURN) st w) in
  let check := answer_url (question st) (selected_option st) in
  shown w' = shown w
  /\ (sent w' = (sent w ++ [check])%list
      \/ sent w' = (sent w ++ [check; random_question_url])%list).
Proof.
  cbv zeta. rewrite confirm_run, check_answer_run.
  destruct (received answer_of _ w) as [correct | e]; [| split; [| left]; reflexivity].
  destruct (py_truthy correct); [| split; [| left]; reflexivity].
  rewrite fetch_random_question_run.
  destruct (received question_of _ _); simpl; rewrite <- app_assoc;
    (split; [| right]; reflexivity).
Qed.

End Requests.

(** ** The down and up keys at the edges *)

Section Keys.
Context {T : PyText} {Q : QuizServer}.

(** X7: on choices of length 0 the down and up keys raise
    [ZeroDivisionError], and on choices that have no length (none, a bool,
    a number) they raise [TypeError]; the world is left as it is. *)
Theorem move_on_no_choices (st : locals) (w : world) :
  (py_len (choices (question st)) = Ok 0 ->
   handle_event (KEYDOWN K_DOWN) st w = (Raise ZeroDivisionError, w)
   /\ handle_event (KEYDOWN K_UP) st w = (Raise ZeroDivisionError, w))
  /\ (forall e, py_len (choices (question st)) = Raise e ->
      handle_event (KEYDOWN K_DOWN) st w = (Raise TypeError, w)
      /\ handle_event (KEYDOWN K_UP) st w = (Raise TypeError, w))
  /\ (py_len (PList []) = Ok 0 /\ py_len (PStr "") = Ok 0 /\ py_len (PDict []) = Ok 0).
Proof.
  rewrite (move_run K_DOWN 1), (move_run K_UP (-1)) by auto.
  split; [| split].
  - intros Hlen. now rewrite Hlen.
  - intros e Hlen. rewrite Hlen.
    assert (e = TypeError) as ->
        by (destruct (choices (question st)); simpl in Hlen; congruence).
    now split.
  - now repeat split.
Qed.

(** X8: on choices of length n > 0 and from any integer, in range or not,
    k >= 1 presses of the down key set the selection to (s + k) mod n and
    k presses of the up key to (s - k) mod n, an index in both cases. *)
Theorem moves_from_anywhere (k : nat) (st : locals) (w : world) (n : Z) :
  py_len (choices (question st)) = Ok n ->
  0 < n ->
  (1 <= k)%nat ->
  let s := selected_option st in
  handle_events (repeat (KEYDOWN K_DOWN) k) st w
  = (Ok (set_selected_option ((s + Z.of_nat k) mod n) st), w)
  /\ handle_events (repeat (KEYDOWN K_UP) k) st w
     = (Ok (set_selected_option ((s - Z.of_nat k) mod n) st), w)
  /\ 0 <= (s + Z.of_nat k) mod n < n
  /\ 0 <= (s - Z.of_nat k) mod n < n.
Proof.
  intros Hlen Hn Hk s. destruct k as [| k]; [lia |].
  split; [| split; [| split]]; try (apply Z.mod_pos_bound; lia).
  - cbn [repeat handle_events]. unfold bind at 1.
    rewrite (down_step st w n Hlen) by lia.
    rewrite (downs k _ w n)
      by (simpl; first [assumption | apply Z.mod_pos_bound; lia]).
    rewrite selected_option_set, set_selected_option_twice.
    rewrite Z.add_mod_idemp_l by lia. do 4 f_equal. subst s. lia.
  - cbn [repeat handle_events]. unfold bind at 1.
    rewrite (up_step st w n Hlen) by lia.
    rewrite (ups k _ w n)
      by (simpl; first [assumption | apply Z.mod_pos_bound; lia]).
    rewrite selected_option_set, set_selected_option_twice.
    rewrite Zminus_mod_idemp_l. do 4 f_equal. subst s. lia.
Qed.

End Keys.

(** ** Batches of events *)

Section Batches.
Context {T : PyText} {Q : QuizServer}.



Lemma game_loop_stopped (frames : list (list event)) (st : locals) (w : world) :
  game_running st = false -> game_loop frames st w = (Ok st, w).
Proof. intros Hst. destruct frames; simpl; now rewrite Hst. Qed.

(** X9: the batches that follow the one with a quit command are never
    read: the loop gives what it gives on that batch alone, and its locals
    are then stopped. *)
Theorem batches_after_quit_are_not_read
        (events : list event) (later : list (list event)) (st : locals) (w : world) :
  existsb is_quit events = true ->
  game_loop (events :: later) st w = game_loop [events] st w
  /\ (forall st' w', game_loop (events :: later) st w = (Ok st', w') ->
                     game_running st' = false).
Proof.
  intros Hquit.
  assert (Hsame : game_loop (events :: later) st w = game_loop [events] st w).
  { cbn [game_loop]. destruct (game_running st); [| reflexivity].
    unfold bind.
    destruct (handle_events events st w) as [[st1 | e] w1] eqn:Hevents;
      [| reflexivity].
    destruct (handle_events_ok _ _ _ _ _ Hevents) as [_ Hrunning].
    rewrite Hquit, andb_false_r in Hrunning.
    destruct (draw_question _ _ _ w1) as [[[] | e] w2]; [| reflexivity].
    rewrite (game_loop_stopped later st1 w2 Hrunning).
    now rewrite Hrunning. }
  split; [exact Hsame |].
  intros st' w' Hrun. pose proof (game_loop_result _ _ _ _ _ Hrun) as [_ Hrunning].
  unfold has_quit in Hrunning. cbn [existsb] in Hrunning.
  rewrite Hquit in Hrunning. simpl in Hrunning. now rewrite andb_false_r in Hrunning.
Qed.



Lemma error_of_raises {A} (r : response) :
  exists e, @error_of A T r = Raise e.
Proof.
  unfold error_of. destruct (status_code r =? 400); [| eauto].
  destruct (body r) as [v |]; [| eauto].
  destruct (py_getitem v "message"); eauto.
Qed.

(** X11: when the first request for a question gets no answer, or an
    answer whose status is not 200, [main] ends with the exception of that
    call, which is not [SystemExit]: the window is set up, one request is
    sent, no event is read and nothing is drawn, whatever the batches. *)
Theorem first_question_must_arrive (frames : list (list event)) (w : world)
        (answer : option response) (sv : server) :
  serve random_question_url (srv w) = (answer, sv) ->
  (forall r, answer = Some r -> status_code r <> 200) ->
  exists e,
    main frames w
    = (Raise e,
       {| srv := sv;
          sent := (sent w ++ [random_question_url])%list;
          shown := (shown w ++ [set_mode 800 600; set_caption "Quiz Game"])%list |})
    /\ e <> SystemExit.
Proof.
  intros Hserve Hstatus.
  assert (Hfetch : exists e,
             fetch_random_question (setup w)
             = (Raise e,
                {| srv := sv;
                   sent := (sent w ++ [random_question_url])%list;
                   shown := (shown w ++ [set_mode 800 600;
                                         set_caption "Quiz Game"])%list |})).
  { rewrite fetch_random_question_run. unfold received, after_request.
    simpl. rewrite Hserve. simpl. destruct answer as [r |]; [| eauto].
    unfold question_of.
    destruct (Z.eqb_spec (status_code r) 200) as [E | _];
      [now elim (Hstatus r eq_refl) |].
    destruct (@error_of_raises MultipleChoiceQuestion r) as [e He].
    rewrite He. eauto. }
  destruct Hfetch as [e Hfetch]. exists e. split.
  - now rewrite main_run, Hfetch.
  - eapply fetch_random_question_no_exit. exact Hfetch.
Qed.

End Batches.

(** ** Answers the client cannot read *)

Section Responses.
Context {T : PyText} {Q : QuizServer}.

(** X12: an answer with status 200 or 400 whose body is not JSON makes
    both calls raise [JSONDecodeError]; a 200 whose body is JSON but no
    mapping makes them raise [TypeError]; a 200 without [is_correct] makes
    [check_answer] raise [KeyError]; and a 400 without [message] makes both
    raise [KeyError] where a [GameException] was meant. *)
Theorem unreadable_answers (q : MultipleChoiceQuestion) (s : Z) (w : world)
        (r : response) (sv : server) :
  (status_code r = 200 \/ status_code r = 400) ->
  (serve random_question_url (srv w) = (Some r, sv) ->
   (body r = None -> fst (fetch_random_question w) = Raise JSONDecodeError)
   /\ (forall v, status_code r = 200 -> body r = Some v ->
                 (forall bindings, v <> PDict bindings) ->
                 fst (fetch_random_question w) = Raise TypeError)
   /\ (forall bindings, status_code r = 400 -> body r = Some (PDict bindings) ->
                        lookup "message" bindings = None ->
                        fst (fetch_random_question w) = Raise (KeyError "message")))
  /\ (serve (answer_url q s) (srv w) = (Some r, sv) ->
      (body r = None -> fst (check_answer q s w) = Raise JSONDecodeError)
      /\ (forall v, status_code r = 200 -> body r = Some v ->
                    (forall bindings, v <> PDict bindings) ->
                    fst (check_answer q s w) = Raise TypeError)
      /\ (forall bindings, status_code r = 200 -> body r = Some (PDict bindings) ->
                           lookup "is_correct" bindings = None ->
                           fst (check_answer q s w) = Raise (KeyError "is_correct"))
      /\ (forall bindings, status_code r = 400 -> body r = Some (PDict bindings) ->
                           lookup "message" bindings = None ->
                           fst (check_answer q s w) = Raise (KeyError "message"))).
Proof.
  intros Hstatus. split; intros Hserve.
  - rewrite fetch_random_question_run. unfold received. rewrite Hserve. simpl.
    unfold question_of, error_of. split; [| split].
    + intros Hbody. rewrite Hbody. now destruct Hstatus as [-> | ->].
    + intros v H200 Hbody Hv. rewrite H200, Hbody. simpl.
      destruct v; try reflexivity. now elim (Hv bindings).
    + intros bindings H400 Hbody Hm. rewrite H400, Hbody. simpl. now rewrite Hm.
  - rewrite check_answer_run. unfold received. rewrite Hserve. simpl.
    unfold answer_of, error_of. split; [| split; [| split]].
    + intros Hbody. rewrite Hbody. now destruct Hstatus as [-> | ->].
    + intros v H200 Hbody Hv. rewrite H200, Hbody. simpl.
      destruct v; try reflexivity. now elim (Hv bindings).
    + intros bindings H200 Hbody Hm. rewrite H200, Hbody. simpl. now rewrite Hm.
    + intros bindings H400 Hbody Hm. rewrite H400, Hbody. simpl. now rewrite Hm.
Qed.

End Responses.

(** ** What the request and the body determine *)

Section Determined.
Context {T : PyText} {Q : QuizServer}.

Lemma append_cancel_l (p a b : string) : p ++ a = p ++ b -> a = b.
Proof.
  induction p as [| c p IH]; simpl; intros E; [exact E |].
  inversion E. now apply IH.
Qed.

Lemma int_of_str_str_int (z : Z) : int_of_str (str_int z) = Some z.
Proof.
  unfold int_of_str, str_int. rewrite NilZero.isi.
  - simpl. now rewrite DecimalZ.of_to.
  - destruct z; simpl; try discriminate.
    intros E. inversion E as [E']. now apply (Unsigned.to_uint_nonnil p).
  - destruct z; simpl; try discriminate.
    intros E. inversion E as [E']. now apply (Unsigned.to_uint_nonnil p).
Qed.

(** X13: the selected option is written into the URL in decimal and reads
    back as itself, so for one question identifier two requests of
    [check_answer] are the same only for the same option. *)
Theorem answer_url_tells_the_option
        (q1 q2 : MultipleChoiceQuestion) (s1 s2 : Z) :
  py_str (question_id q1) = py_str (question_id q2) ->
  int_of_str (str_int s1) = Some s1
  /\ (answer_url q1 s1 = answer_url q2 s2 <-> s1 = s2).
Proof.
  intros Hid. split; [apply int_of_str_str_int |]. split.
  - unfold answer_url. rewrite Hid. intros E.
    do 4 apply append_cancel_l in E.
    pose proof (int_of_str_str_int s1) as H1.
    rewrite E, int_of_str_str_int in H1. now inversion H1.
  - intros ->. unfold answer_url. now rewrite Hid.
Qed.

Lemma lookup_in (key : string) (bindings : list (string * pyval)) (v : pyval) :
  lookup key bindings = Some v -> In (key, v) bindings.
Proof.
  induction bindings as [| [k x] rest IH]; simpl; [discriminate |].
  destruct (String.eqb_spec k key) as [-> | _].
  - intros E. inversion E. now left.
  - intros E. right. now apply IH.
Qed.

Lemma in_lookup (key : string) (bindings : list (string * pyval)) (v : pyval) :
  NoDup (map fst bindings) -> In (key, v) bindings -> lookup key bindings = Some v.
Proof.
  induction bindings as [| [k x] rest IH]; simpl; [contradiction |].
  intros Hnd [E | Hin]; inversion Hnd as [| ? ? Hk Hrest]; subst.
  - inversion E; subst. now rewrite String.eqb_refl.
  - destruct (String.eqb_spec k key) as [-> | _]; [| now apply IH].
    elim Hk. now apply (in_map fst rest (key, v)).
Qed.

Lemma lookup_permutation (key : string) (a b : list (string * pyval)) :
  NoDup (map fst a) -> Permutation a b -> lookup key a = lookup key b.
Proof.
  intros Hnd Hperm.
  assert (Hnd' : NoDup (map fst b))
    by (eapply Permutation_NoDup; [apply Permutation_map; exact Hperm | exact Hnd]).
  destruct (lookup key a) as [v |] eqn:Ha.
  - symmetry. apply in_lookup; [exact Hnd' |].
    eapply Permutation_in; [exact Hperm |]. now apply lookup_in.
  - destruct (lookup key b) as [v |] eqn:Hb; [| reflexivity].
    apply lookup_in in Hb. apply (Permutation_in _ (Permutation_sym Hperm)) in Hb.
    apply (in_lookup _ _ _ Hnd) in Hb. congruence.
Qed.

Lemma forallb_permutation {A} (f : A -> bool) (a b : list A) :
  Permutation a b -> forallb f a = forallb f b.
Proof.
  induction 1 as [| x a b _ IH | x y a | a b c _ IHab _ IHbc]; simpl.
  - reflexivity.
  - now rewrite IH.
  - now destruct (f x), (f y).
  - congruence.
Qed.

(** X14: the fields are bound by name: two bodies with the same bindings
    in a different order, the keys being distinct as in any parsed body,
    make the same question or fail alike. *)
Theorem field_order_is_irrelevant (a b : list (string * pyval)) :
  NoDup (map fst a) ->
  Permutation a b ->
  new_question (PDict a) = new_question (PDict b).
Proof.
  intros Hnd Hperm. unfold new_question.
  rewrite (forallb_permutation _ a b Hperm).
  now rewrite !(lookup_permutation _ a b Hnd Hperm).
Qed.

End Determined.

(** ** Batches split and joined, and all that is ever requested *)

Section Traffic.
Context {T : PyText} {Q : QuizServer}.


Lemma handle_event_sent (ev : event) (st : locals) (w : world) :
  exists urls,
    sent (snd (handle_event ev st w)) = (sent w ++ urls)%list
    /\ Forall is_endpoint urls.
Proof.
  destruct ev as [| [] |];
    try (exists []; split; [now rewrite app_nil_r | constructor]).
  - exists []. rewrite (move_run K_DOWN 1) by auto.
    split; [now rewrite app_nil_r | constructor].
  - exists []. rewrite (move_run K_UP (-1)) by auto.
    split; [now rewrite app_nil_r | constructor].
  - assert (Hcheck : is_endpoint (answer_url (question st) (selected_option st)))
      by (right; eauto).
    assert (Hfetch : is_endpoint random_question_url) by now left.
    rewrite confirm_run, check_answer_run.
    destruct (received answer_of _ w) as [correct | e];
      [| eexists [_]; split; [reflexivity | constructor; [exact Hcheck | constructor]]].
    destruct (py_truthy correct);
      [| eexists [_]; split; [reflexivity | constructor; [exact Hcheck | constructor]]].
    rewrite fetch_random_question_run.
    eexists [_; _].
    split; [| constructor; [exact Hcheck | constructor; [exact Hfetch | constructor]]].
    destruct (received question_of _ _); simpl; now rewrite <- app_assoc.
Qed.

Lemma handle_events_sent (events : list event) :
  forall (st : locals) (w : world),
    exists urls,
      sent (snd (handle_events events st w)) = (sent w ++ urls)%list
      /\ Forall is_endpoint urls.
Proof.
  induction events as [| ev rest IH]; intros st w.
  - exists []. split; [simpl; now rewrite app_nil_r | constructor].
  - cbn [handle_events]. unfold bind.
    destruct (handle_event_sent ev st w) as (urls & Hsent & Hurls).
    destruct (handle_event ev st w) as [[st1 | e] w1]; simpl in Hsent.
    + destruct (IH st1 w1) as (urls' & Hsent' & Hurls').
      exists (urls ++ urls')%list. split.
      * now rewrite Hsent', Hsent, app_assoc.
      * now apply Forall_app.
    + now exists urls.
Qed.

Lemma game_loop_sent (frames : list (list event)) :
  forall (st : locals) (w : world),
    exists urls,
      sent (snd (game_loop frames st w)) = (sent w ++ urls)%list
      /\ Forall is_endpoint urls.
Proof.
  induction frames as [| events later IH]; intros st w.
  - exists []. split; [| constructor].
    simpl. destruct (game_running st); simpl; now rewrite app_nil_r.
  - cbn [game_loop]. destruct (game_running st);
      [| exists []; split; [simpl; now rewrite app_nil_r | constructor]].
    unfold bind.
    destruct (handle_events_sent events st w) as (urls & Hsent & Hurls).
    destruct (handle_events events st w) as [[st1 | e] w1]; simpl in Hsent;
      [| now exists urls].
    destruct (draw_question_result (question st1) (selected_option st1)
                                   (score st1) w1) as [calls [Hd | Hd]];
      rewrite Hd.
    + destruct (IH st1 (show calls w1)) as (urls' & Hsent' & Hurls').
      exists (urls ++ urls')%list. split.
      * rewrite Hsent'. simpl. now rewrite Hsent, app_assoc.
      * now apply Forall_app.
    + now exists urls.
Qed.

(** X16: whatever the events and the answers, [main] first asks for a
    question, and every request it sends after that is either the request
    for a question or the check of an option of a question. *)
Theorem main_talks_to_two_endpoints (frames : list (list event)) (w : world) :
  exists urls,
    sent (snd (main frames w)) = (sent w ++ random_question_url :: urls)%list
    /\ Forall is_endpoint urls.
Proof.
  rewrite main_run, fetch_random_question_run.
  destruct (received question_of _ _) as [q | e];
    [| exists []; split; [reflexivity | constructor]].
  destruct (game_loop_sent frames (initial q)
                          (after_request random_question_url (setup w)))
    as (urls & Hsent & Hurls).
  destruct (game_loop frames (initial q) _) as [[st | e] w2]; simpl in Hsent.
  - exists urls. split; [| exact Hurls].
    destruct (game_running st); simpl; now rewrite Hsent, <- app_assoc.
  - exists urls. split; [| exact Hurls]. simpl. now rewrite Hsent, <- app_assoc.
Qed.

End Traffic.

(** ** The further properties on concrete runs *)




(** X5 on the down key. *)
Lemma only_enter_reaches_the_service_on_down :
  snd (@handle_event plain_text one_question (KEYDOWN K_DOWN) (playing 2) opening)
  = opening.
Proof.
  apply (@only_enter_reaches_the_service plain_text one_question). discriminate.
Defined.

(** X7 on an empty list of choices. *)
Lemma move_on_no_choices_on_empty_list :
  @handle_event plain_text scripted (KEYDOWN K_DOWN)
     {| game_running := true; selected_option := 0;
        question := {| question_id := PStr "q0"; question_text := PStr "?";
                       answer_index := PInt 0; choices := PList [] |};
        score := 0 |} (fresh [])
  = (Raise ZeroDivisionError, fresh []).
Proof.
  apply (proj1 (@move_on_no_choices plain_text scripted _ (fresh []))).
  reflexivity.
Defined.

(** X8 from a selection of 7 on three choices: four presses of the down
    key lead to index 2. *)
Lemma moves_from_anywhere_on_abc :
  @handle_events plain_text scripted (repeat (KEYDOWN K_DOWN) 4) (playing 7) (fresh [])
  = (Ok (playing 2), fresh []).
Proof.
  destruct (@moves_from_anywhere plain_text scripted 4 (playing 7) (fresh []) 3
              eq_refl) as (Hdown & _).
  - lia.
  - lia.
  - exact Hdown.
Defined.

(** X9 on a quit followed by a batch that is never read. *)
Lemma batches_after_quit_are_not_read_on_abc :
  @game_loop plain_text one_question [[QUIT]; [KEYDOWN K_DOWN]] (playing 0) opening
  = @game_loop plain_text one_question [[QUIT]] (playing 0) opening.
Proof.
  apply (@batches_after_quit_are_not_read plain_text one_question). reflexivity.
Defined.


(** X11 on a service that answers 500 to the first request. *)
Lemma first_question_must_arrive_on_500 :
  exists e,
    fst (@main plain_text scripted [[KEYDOWN K_DOWN]; [QUIT]]
           (fresh [refusal 500 "down"])) = Raise e
    /\ e <> SystemExit.
Proof.
  destruct (@first_question_must_arrive plain_text scripted
              [[KEYDOWN K_DOWN]; [QUIT]] (fresh [refusal 500 "down"])
              (refusal 500 "down") [] eq_refl) as (e & Hmain & He).
  - intros r E. inversion E. simpl. discriminate.
  - exists e. rewrite Hmain. now split.
Defined.

(** X12 on a 400 whose body has no message. *)
Lemma unreadable_answers_on_400 :
  fst (@fetch_random_question plain_text scripted
         (fresh [Some {| status_code := 400; body := Some (PDict []) |}]))
  = Raise (KeyError "message").
Proof.
  destruct (@unreadable_answers plain_text scripted abc 0
              (fresh [Some {| status_code := 400; body := Some (PDict []) |}])
              {| status_code := 400; body := Some (PDict []) |} []
              (or_intror eq_refl)) as [Hfetch _].
  destruct (Hfetch eq_refl) as (_ & _ & Hmessage).
  exact (Hmessage [] eq_refl eq_refl eq_refl).
Defined.

(** X13 on two options of one question. *)
Lemma answer_url_tells_the_option_on_abc :
  @answer_url plain_text abc 1 <> @answer_url plain_text abc 2.
Proof.
  destruct (@answer_url_tells_the_option plain_text abc abc 1 2 eq_refl)
    as [_ [Hsame _]].
  intros E. apply Hsame in E. discriminate.
Defined.

(** X14 on the example body with its fields the other way round. *)
Lemma field_order_is_irrelevant_on_abc :
  new_question
    (PDict [("choices", PList [PStr "A"; PStr "B"; PStr "C"]);
            ("answer_index", PInt 1); ("question_text", PStr "Pick B");
            ("question_id", PStr "q1")])
  = Ok abc.
Proof.
  rewrite <- (field_order_is_irrelevant
                [("question_id", PStr "q1"); ("question_text", PStr "Pick B");
                 ("answer_index", PInt 1);
                 ("choices", PList [PStr "A"; PStr "B"; PStr "C"])]).
  - reflexivity.
  - repeat constructor; simpl; intuition discriminate.
  - apply Permutation_rev.
Defined.
